(** * clean_subtitles.py: the WebVTT subtitle cleaner

    A shallow embedding of [clean_vtt_subtitle] and of the statistics block of
    [main] (skills/youtube-subtitle-summarizer/clean_subtitles.py), and the
    properties of the cleaner stated in the specification.

    A Python [str] is a sequence of Unicode code points: a character is a
    code point in [N], a string a list of them.  The string methods and the
    two [re.sub] calls of the source are embedded as functions on such lists;
    the per-call [set] of seen lines is a [gset]. *)

From Stdlib Require Import NArith Ascii String.
From stdpp Require Import base decidable option list gmap pretty.

Local Open Scope N_scope.

(** ** Strings *)

Abbreviation char := N.
Abbreviation str := (list N).

(** An ASCII literal of the source as a list of code points. *)
Definition lit (s : string) : str :=
  List.map N_of_ascii (list_ascii_of_string s).

Definition NL : char := 10.    (* '\n' *)
Definition SP : char := 32.    (* ' ' *)
Definition LT : char := 60.    (* '<' *)
Definition GT : char := 62.    (* '>' *)
Definition SLASH : char := 47. (* '/' *)

(** [str.isspace] on one code point: the characters [str.strip()] strips and
    [str.split()] splits on (CPython's [_PyUnicode_IsWhitespace]). *)
Definition isspace (c : char) : bool :=
  ((9 <=? c) && (c <=? 13))            (* \t \n \v \f \r *)
  || ((28 <=? c) && (c <=? 32))        (* FS GS RS US and the space *)
  || (c =? 133) || (c =? 160)          (* NEL, no-break space *)
  || (c =? 5760)                       (* U+1680 *)
  || ((8192 <=? c) && (c <=? 8202))    (* U+2000 .. U+200A *)
  || (c =? 8232) || (c =? 8233)        (* U+2028, U+2029 *)
  || (c =? 8239) || (c =? 8287)        (* U+202F, U+205F *)
  || (c =? 12288).                     (* U+3000 *)

(** [s.split(sep)] for a one-character separator: never an empty list. *)
Fixpoint py_split_sep (sep : char) (s : str) : list str :=
  match s with
  | [] => [[]]
  | c :: t =>
      if c =? sep then [] :: py_split_sep sep t
      else match py_split_sep sep t with
           | l :: ls => (c :: l) :: ls
           | [] => [[c]]
           end
  end.

(** [sep.join(parts)]. *)
Fixpoint py_join (sep : str) (parts : list str) : str :=
  match parts with
  | [] => []
  | [p] => p
  | p :: rest => p ++ sep ++ py_join sep rest
  end.

(** [s.startswith(p)]. *)
Fixpoint startswith (p s : str) : bool :=
  match p, s with
  | [], _ => true
  | _ :: _, [] => false
  | a :: p', b :: s' => (a =? b) && startswith p' s'
  end.

(** [p in s]: [p] starts at some position of [s]. *)
Fixpoint contains (p s : str) : bool :=
  startswith p s ||
  match s with
  | [] => false
  | _ :: s' => contains p s'
  end.

(** [s.strip()]: whitespace removed at both ends. *)
Fixpoint lstrip (s : str) : str :=
  match s with
  | c :: t => if isspace c then lstrip t else s
  | [] => []
  end.

Definition rstrip (s : str) : str := rev (lstrip (rev s)).

Definition py_strip (s : str) : str := rstrip (lstrip s).

(** [s.split()]: the maximal runs of non-whitespace characters; [w] is the
    run being read. *)
Fixpoint split_ws (w : str) (s : str) : list str :=
  match s with
  | [] => match w with [] => [] | _ => [w] end
  | c :: t =>
      if isspace c
      then match w with [] => split_ws [] t | _ => w :: split_ws [] t end
      else split_ws (w ++ [c]) t
  end.

Definition py_split (s : str) : list str := split_ws [] s.

(** Truth value of a string: non-empty. *)
Definition truthy (s : str) : bool :=
  match s with [] => false | _ => true end.

(** ** Regular expressions

    The fragment of Python's [re] syntax the two patterns of the source use:
    single characters, a negated one-character class, [\w], concatenation,
    greedy [?] and greedy [+] over a character class. *)

Inductive cclass : Type :=
  | CChar (c : char)      (* the character itself *)
  | CNot (c : char)       (* [^c] *)
  | CWord.                (* \w *)

Inductive regex : Type :=
  | RClass (k : cclass)
  | RCat (r1 r2 : regex)
  | ROpt (r : regex)      (* r? *)
  | RPlus (k : cclass).   (* k+ *)

(** A Unicode table for the instances below: an interpreter whose [\w]
    accepts nothing above U+007F. *)
Definition ascii_alnum_only : char -> bool := fun _ => false.

Section Cleaner.

(** [\w] on a [str] pattern matches the underscore and what [str.isalnum]
    accepts.  Below U+0080 that is [0-9A-Za-z]; above it the answer is in
    the Unicode database of the interpreter, taken here as a parameter. *)
Variable unicode_alnum : char -> bool.

Definition is_word (c : char) : bool :=
  if c <? 128 then
    ((48 <=? c) && (c <=? 57)) || ((65 <=? c) && (c <=? 90))
    || ((97 <=? c) && (c <=? 122)) || (c =? 95)
  else unicode_alnum c.

Definition in_class (k : cclass) (c : char) : bool :=
  match k with
  | CChar a => c =? a
  | CNot a => negb (c =? a)
  | CWord => is_word c
  end.

(** [k+] at the start of [s]: what is left of [s] after each possible
    match, the longest match first (greedy, then backtracking). *)
Fixpoint plus_class (k : cclass) (s : str) : list str :=
  match s with
  | c :: t => if in_class k c then plus_class k t ++ [t] else []
  | [] => []
  end.

(** The backtracking matcher: [rmatch r s] lists what is left of [s] after
    each way [r] can match at the start of [s], in the order the engine
    tries them.  [re.match] takes the first. *)
Fixpoint rmatch (r : regex) (s : str) : list str :=
  match r with
  | RClass k =>
      match s with
      | c :: t => if in_class k c then [t] else []
      | [] => []
      end
  | RCat r1 r2 => rmatch r1 s ≫= rmatch r2
  | ROpt r1 => rmatch r1 s ++ [s]
  | RPlus k => plus_class k s
  end.

(** Length of the match of [r] at the start of [s], if there is one. *)
Definition re_match (r : regex) (s : str) : option nat :=
  match rmatch r s with
  | rest :: _ => Some (length s - length rest)%nat
  | [] => None
  end.

(** [re.sub(r, '', s)]: scanning left to right, every leftmost match is
    dropped and the scan resumes after it; a character at which nothing
    matches is kept.  [skip] counts the characters of the current match
    still to drop. *)
Fixpoint re_sub_from (r : regex) (skip : nat) (s : str) : str :=
  match s with
  | [] => []
  | c :: t =>
      match skip with
      | S k => re_sub_from r k t
      | O =>
          match re_match r s with
          | Some (S k) => re_sub_from r k t
          | _ => c :: re_sub_from r 0 t
          end
      end
  end.

Definition re_sub (r : regex) (s : str) : str := re_sub_from r 0 s.

(** r'<[^>]+>' *)
Definition tag_re : regex :=
  RCat (RClass (CChar LT)) (RCat (RPlus (CNot GT)) (RClass (CChar GT))).

(** r'</?\w+>' *)
Definition mark_re : regex :=
  RCat (RClass (CChar LT))
    (RCat (ROpt (RClass (CChar SLASH)))
       (RCat (RPlus CWord) (RClass (CChar GT)))).

(** ** The cleaner *)

(** The state of the loop: the lines emitted so far and the set of them. *)
Record loop_state : Type := LoopState {
  text_lines : list str;
  seen_lines : gset str
}.

Definition init_state : loop_state :=
  {| text_lines := []; seen_lines := ∅ |}.

(** Line 28: the line starts with a VTT header keyword. *)
Definition is_header (line : str) : bool :=
  startswith (lit "WEBVTT") line || startswith (lit "Kind:") line
  || startswith (lit "Language:") line.

(** Line 32: the line holds a timing arrow. *)
Definition is_timing (line : str) : bool := contains (lit "-->") line.

(** Line 36: [not line.strip()]. *)
Definition is_blank (line : str) : bool := negb (truthy (py_strip line)).

(** Lines 40 to 46: both tag removals, then the whitespace collapse. *)
Definition strip_tags (line : str) : str := re_sub tag_re line.

Definition strip_marks (line : str) : str := re_sub mark_re line.

Definition collapse_ws (line : str) : str := py_join [SP] (py_split line).

Definition clean_text (line : str) : str :=
  collapse_ws (strip_marks (strip_tags line)).

(** One iteration of the loop of lines 26 to 51. *)
Definition loop_body (st : loop_state) (line : str) : loop_state :=
  if is_header line then st
  else if is_timing line then st
  else if is_blank line then st
  else
    let clean_line := clean_text line in
    if truthy clean_line && bool_decide (clean_line ∉ seen_lines st)
    then {| text_lines := text_lines st ++ [clean_line];
            seen_lines := {[clean_line]} ∪ seen_lines st |}
    else st.

(** [text_lines] when the loop ends. *)
Definition clean_lines (vtt_content : str) : list str :=
  let lines := py_split_sep NL vtt_content in
  text_lines (foldl loop_body init_state lines).

Definition clean_vtt_subtitle (vtt_content : str) : str :=
  py_join [NL] (clean_lines vtt_content).

(** The statistics of [main] (lines 84 and 85) for the cleaned text. *)
Definition line_count (cleaned_text : str) : nat :=
  length (py_split_sep NL cleaned_text).

Definition char_count (cleaned_text : str) : nat := length cleaned_text.

(** ** The command line

    [main] as a function of the argument vector and of what the file system
    shows for the path argument, to what the run leaves: the text written to
    each stream and the exit status. *)












(** What a line adds to the output, if anything: its cleaned text, unless
    the line is skipped or nothing is left of it. *)
Definition cleaned (line : str) : option str :=
  if is_header line || is_timing line || is_blank line then None
  else if truthy (clean_text line) then Some (clean_text line) else None.

(** The lines the loop appends, in order, when it starts with the set
    [seen]. *)
Fixpoint emitted (seen : gset str) (lines : list str) : list str :=
  match lines with
  | [] => []
  | l :: ls =>
      match cleaned l with
      | Some c =>
          if bool_decide (c ∉ seen)
          then c :: emitted ({[c]} ∪ seen) ls
          else emitted seen ls
      | None => emitted seen ls
      end
  end.

(** Index of the first input line whose cleaned text is [c]. *)
Fixpoint first_index (c : str) (lines : list str) : option nat :=
  match lines with
  | [] => None
  | l :: ls =>
      if bool_decide (cleaned l = Some c) then Some 0%nat
      else S <$> first_index c ls
  end.

(** A whitespace-normalized line: nothing to strip at either end, no tab,
    no newline, no two spaces in a row. *)
Definition ws_normalized (l : str) : Prop :=
  py_strip l = l /\ (9 ∉ l) /\ (NL ∉ l) /\ contains [SP; SP] l = false.

(** A word of [str.split()]: a non-empty run without whitespace. *)
Definition word (w : str) : Prop :=
  w <> [] /\ Forall (fun c => isspace c = false) w.

(** The language of a pattern: the strings it can match as a whole. *)
Inductive lang : regex -> str -> Prop :=
  | lang_class k c :
      in_class k c = true -> lang (RClass k) [c]
  | lang_cat r1 r2 u v :
      lang r1 u -> lang r2 v -> lang (RCat r1 r2) (u ++ v)
  | lang_opt_some r u :
      lang r u -> lang (ROpt r) u
  | lang_opt_none r :
      lang (ROpt r) []
  | lang_plus k c u :
      Forall (fun x => in_class k x = true) (c :: u) -> lang (RPlus k) (c :: u).

(** A tag opens at the start of [s]: a ['<'], a character other than ['>'],
    and a ['>'] somewhere after it. *)
Definition tag_start (s : str) : Prop :=
  exists x t, s = LT :: x :: t /\ x <> GT /\ GT ∈ t.

(** No tag opens anywhere in [l]. *)
Definition tag_free (l : str) : Prop :=
  forall u v, l = u ++ v -> ~ tag_start v.

(** What follows the first ['>'] of [t], if there is one. *)
Fixpoint after_gt (t : str) : option str :=
  match t with
  | [] => None
  | c :: t' => if c =? GT then Some t' else after_gt t'
  end.

(** [o] is [l] with its whitespace squeezed in some way: a character that is
    not whitespace is kept, a whitespace character is dropped or becomes one
    space. *)
Inductive ws_squeeze : str -> str -> Prop :=
  | squeeze_nil : ws_squeeze [] []
  | squeeze_keep c l o :
      isspace c = false -> ws_squeeze l o -> ws_squeeze (c :: l) (c :: o)
  | squeeze_drop c l o :
      isspace c = true -> ws_squeeze l o -> ws_squeeze (c :: l) o
  | squeeze_space c l o :
      isspace c = true -> ws_squeeze l o -> ws_squeeze (c :: l) (SP :: o).

(** ** String methods *)

Lemma startswith_spec p s : startswith p s = true <-> exists v, s = p ++ v.
Proof.
  revert s. induction p as [|a p IH]; intros s; simpl.
  - split; [intros _; by exists s | done].
  - destruct s as [|b s]; [split; [done | by intros (v & Hv)]|].
    rewrite andb_true_iff, N.eqb_eq, IH. split.
    + intros [-> (v & ->)]. by exists v.
    + intros (v & Hv). injection Hv as -> ->. split; [done | by exists v].
Qed.

Lemma contains_spec p s :
  contains p s = true <-> exists u v, s = u ++ p ++ v.
Proof.
  induction s as [|c s IH]; simpl.
  - rewrite orb_false_r, startswith_spec. split.
    + intros (v & Hv). by exists [], v.
    + intros (u & v & Hv). destruct u; [by exists v | done].
  - rewrite orb_true_iff, startswith_spec, IH. split.
    + intros [(v & ->) | (u & v & ->)]; [by exists [], v | by exists (c :: u), v].
    + intros (u & v & Hv). destruct u as [|a u]; simpl in Hv.
      * left. by exists v.
      * injection Hv as -> ->. right. by exists u, v.
Qed.

Lemma lstrip_nil s : lstrip s = [] <-> Forall (fun c => isspace c = true) s.
Proof.
  induction s as [|c s IH]; simpl; [done|].
  destruct (isspace c) eqn:E.
  - rewrite IH. split; [by constructor | by inversion 1].
  - split; [done | inversion 1; congruence].
Qed.

Lemma lstrip_all_space s :
  Forall (fun c => isspace c = true) (lstrip s) -> lstrip s = [].
Proof.
  induction s as [|c s IH]; simpl; [done|].
  destruct (isspace c) eqn:E; [done|]. inversion 1; congruence.
Qed.

(** [not line.strip()] holds exactly of the lines made of whitespace. *)
Lemma py_strip_nil s :
  py_strip s = [] <-> Forall (fun c => isspace c = true) s.
Proof.
  unfold py_strip, rstrip. rewrite <- lstrip_nil. split.
  - intros H. apply (f_equal (@rev N)) in H. rewrite rev_involutive in H.
    simpl in H. apply lstrip_nil, Forall_rev in H.
    rewrite rev_involutive in H. by apply lstrip_all_space.
  - by intros ->.
Qed.

Lemma split_ws_words s w :
  Forall (fun c => isspace c = false) w -> Forall word (split_ws w s).
Proof.
  revert w. induction s as [|c s IH]; intros w Hw; simpl.
  - destruct w; [constructor|]. constructor; [by split | constructor].
  - destruct (isspace c) eqn:E.
    + destruct w; [by apply IH|].
      constructor; [by split | by apply IH].
    + apply IH, Forall_app. split; [done|]. by constructor.
Qed.

Lemma py_split_words s : Forall word (py_split s).
Proof. by apply split_ws_words. Qed.

Lemma split_ws_nil s w :
  split_ws w s = [] <-> w = [] /\ Forall (fun c => isspace c = true) s.
Proof.
  revert w. induction s as [|c s IH]; intros w; simpl.
  - destruct w; [done|]. split; [done | by intros [? _]].
  - destruct (isspace c) eqn:E.
    + destruct w; [|split; [done | by intros [? _]]].
      rewrite IH. split; intros [_ H]; (split; [done|]).
      * by constructor.
      * by inversion H.
    + rewrite IH. split.
      * intros [H _]. by apply app_eq_nil in H as [_ ?].
      * intros [_ H]. inversion H; congruence.
Qed.

Lemma split_ws_run u w s :
  Forall (fun c => isspace c = false) u ->
  split_ws w (u ++ s) = split_ws (w ++ u) s.
Proof.
  revert w. induction u as [|c u IH]; intros w Hu; simpl.
  - by rewrite app_nil_r.
  - inversion Hu as [|? ? Hc Hu']; subst. rewrite Hc, IH by done.
    by rewrite <- app_assoc.
Qed.

(** Splitting a line made of words joined by single spaces gives the words
    back. *)
Lemma py_split_join ws : Forall word ws -> py_split (py_join [SP] ws) = ws.
Proof.
  unfold py_split. induction ws as [|p ws IH]; [done|].
  intros Hall. inversion Hall as [|? ? [Hne Hp] Hws]; subst.
  destruct ws as [|q ws].
  - simpl. pose proof (split_ws_run p [] [] Hp) as Hrun.
    rewrite app_nil_r in Hrun. rewrite Hrun. simpl. by destruct p.
  - change (py_join [SP] (p :: q :: ws))
      with (p ++ SP :: py_join [SP] (q :: ws)).
    rewrite split_ws_run by done.
    change (split_ws ([] ++ p) (SP :: py_join [SP] (q :: ws)))
      with (match p with
            | [] => split_ws [] (py_join [SP] (q :: ws))
            | _ => p :: split_ws [] (py_join [SP] (q :: ws))
            end).
    rewrite IH by done. by destruct p.
Qed.

Lemma py_join_words_nil ws : Forall word ws -> py_join [SP] ws = [] -> ws = [].
Proof.
  destruct ws as [|p ws]; [done|]. intros Hall. inversion Hall as [|? ? [Hne _] _].
  destruct p; [done|]. by destruct ws.
Qed.

Lemma py_join_words_first p ws :
  Forall word (p :: ws) ->
  exists c t, py_join [SP] (p :: ws) = c :: t /\ isspace c = false.
Proof.
  intros Hall. inversion Hall as [|? ? [Hne Hp] _]; subst.
  destruct p as [|c p]; [done|]. inversion Hp; subst.
  destruct ws; simpl; eauto.
Qed.

Lemma py_join_words_last p ws :
  Forall word (p :: ws) ->
  exists t c, py_join [SP] (p :: ws) = t ++ [c] /\ isspace c = false.
Proof.
  revert p. induction ws as [|q ws IH]; intros p Hall.
  - inversion Hall as [|? ? [Hne Hp] _]; subst. simpl.
    destruct (exists_last Hne) as (t & c & ->).
    exists t, c. split; [done|].
    apply Forall_app in Hp as [_ Hc]. by inversion Hc.
  - inversion Hall as [|? ? _ Hws]; subst.
    destruct (IH q Hws) as (t & c & Heq & Hc).
    change (py_join [SP] (p :: q :: ws))
      with (p ++ SP :: py_join [SP] (q :: ws)).
    rewrite Heq. exists (p ++ SP :: t), c. split; [|done].
    by rewrite <- app_assoc.
Qed.

(** All the whitespace of a collapsed line is single spaces between words. *)
Lemma py_join_words_spaces ws :
  Forall word ws ->
  Forall (fun c => isspace c = true -> c = SP) (py_join [SP] ws).
Proof.
  induction ws as [|p ws IH]; intros Hall; [constructor|].
  inversion Hall as [|? ? [_ Hp] Hws]; subst.
  assert (Forall (fun c => isspace c = true -> c = SP) p) as Hp'.
  { eapply Forall_impl; [exact Hp|]. simpl. congruence. }
  destruct ws as [|q ws]; [done|].
  change (py_join [SP] (p :: q :: ws))
    with (p ++ SP :: py_join [SP] (q :: ws)).
  apply Forall_app. split; [done|]. constructor; [done | by apply IH].
Qed.

Lemma contains_double_space_run u s :
  Forall (fun c => isspace c = false) u ->
  contains [SP; SP] (u ++ s) = contains [SP; SP] s.
Proof.
  induction u as [|c u IH]; intros Hu; [done|].
  inversion Hu as [|? ? Hc Hu']; subst.
  change (contains [SP; SP] ((c :: u) ++ s))
    with (startswith [SP; SP] (c :: u ++ s) || contains [SP; SP] (u ++ s)).
  rewrite IH by done.
  assert ((SP =? c) = false) as Hne by (apply N.eqb_neq; by intros <-).
  cbn [startswith]. by rewrite Hne.
Qed.

Lemma py_join_words_no_double_space ws :
  Forall word ws -> contains [SP; SP] (py_join [SP] ws) = false.
Proof.
  induction ws as [|p ws IH]; intros Hall; [done|].
  inversion Hall as [|? ? [_ Hp] Hws]; subst.
  destruct ws as [|q ws].
  - simpl. pose proof (contains_double_space_run p [] Hp) as Hrun.
    by rewrite app_nil_r in Hrun.
  - change (py_join [SP] (p :: q :: ws))
      with (p ++ SP :: py_join [SP] (q :: ws)).
    rewrite contains_double_space_run by done.
    destruct (py_join_words_first q ws Hws) as (c & t & Heq & Hc).
    change (contains [SP; SP] (SP :: py_join [SP] (q :: ws)))
      with (startswith [SP; SP] (SP :: py_join [SP] (q :: ws))
            || contains [SP; SP] (py_join [SP] (q :: ws))).
    rewrite IH by done. rewrite Heq.
    assert ((SP =? c) = false) as Hne by (apply N.eqb_neq; by intros <-).
    cbn [startswith]. by rewrite Hne.
Qed.

Lemma py_strip_words ws :
  Forall word ws -> py_strip (py_join [SP] ws) = py_join [SP] ws.
Proof.
  intros Hall. destruct ws as [|p ws]; [done|].
  destruct (py_join_words_first p ws Hall) as (c & t & Heq & Hc).
  destruct (py_join_words_last p ws Hall) as (t' & c' & Heq' & Hc').
  unfold py_strip, rstrip.
  assert (lstrip (py_join [SP] (p :: ws)) = py_join [SP] (p :: ws)) as ->.
  { rewrite Heq. simpl. by rewrite Hc. }
  rewrite Heq', rev_unit. simpl. rewrite Hc'. simpl.
  by rewrite rev_involutive.
Qed.

Lemma py_join_cons sep p q ws :
  py_join sep (p :: q :: ws) = p ++ sep ++ py_join sep (q :: ws).
Proof. reflexivity. Qed.

Lemma py_join_length_cons sep p ws :
  (length (py_join sep (p :: ws))
   <= length p + length sep + length (py_join sep ws))%nat.
Proof.
  destruct ws as [|q ws]; [simpl; lia|].
  rewrite py_join_cons, !length_app. lia.
Qed.

Lemma split_ws_join_length w s :
  (length (py_join [SP] (split_ws w s)) <= length w + length s)%nat.
Proof.
  revert w. induction s as [|c s IH]; intros w; simpl.
  - destruct w; simpl; lia.
  - destruct (isspace c).
    + specialize (IH []). destruct w as [|x w]; [simpl in IH; lia|].
      pose proof (py_join_length_cons [SP] (x :: w) (split_ws [] s)) as Hj.
      simpl in *. lia.
    + specialize (IH (w ++ [c])). rewrite length_app in IH. simpl in IH. lia.
Qed.

(** The whitespace collapse never makes a line longer. *)
Lemma collapse_ws_length l : (length (collapse_ws l) <= length l)%nat.
Proof. apply (split_ws_join_length [] l). Qed.

Lemma py_join_nil_inv sep l ls : l <> [] -> py_join sep (l :: ls) <> [].
Proof. destruct l; [done|]. by destruct ls. Qed.

(** Splitting on the newline undoes joining with it, for lines without one. *)
Lemma py_split_sep_line l : NL ∉ l -> py_split_sep NL l = [l].
Proof.
  induction l as [|c l IH]; intros Hnl; [done|].
  apply not_elem_of_cons in Hnl as [Hc Hl]. simpl.
  apply not_eq_sym, N.eqb_neq in Hc as ->. by rewrite IH.
Qed.

Lemma py_split_sep_cons l s :
  NL ∉ l -> py_split_sep NL (l ++ NL :: s) = l :: py_split_sep NL s.
Proof.
  induction l as [|c l IH]; intros Hnl; [done|].
  apply not_elem_of_cons in Hnl as [Hc Hl]. simpl.
  apply not_eq_sym, N.eqb_neq in Hc as ->. by rewrite IH.
Qed.

Lemma py_split_sep_join l ls :
  Forall (fun x => NL ∉ x) (l :: ls) ->
  py_split_sep NL (py_join [NL] (l :: ls)) = l :: ls.
Proof.
  revert l. induction ls as [|l' ls IH]; intros l Hall.
  - inversion Hall; subst. by apply py_split_sep_line.
  - inversion Hall as [|? ? Hl Hls]; subst.
    change (py_join [NL] (l :: l' :: ls))
      with (l ++ NL :: py_join [NL] (l' :: ls)).
    by rewrite py_split_sep_cons, IH.
Qed.

(** ** The matcher and the substitution *)

Lemma plus_class_sound k s rest :
  rest ∈ plus_class k s ->
  exists c u, s = (c :: u) ++ rest /\ Forall (fun x => in_class k x = true) (c :: u).
Proof.
  revert rest. induction s as [|a s IH]; intros rest; simpl.
  - intros H. by apply elem_of_nil in H.
  - destruct (in_class k a) eqn:Ha; [|intros H; by apply elem_of_nil in H].
    rewrite elem_of_app, list_elem_of_singleton. intros [H | ->].
    + destruct (IH _ H) as (c & u & -> & Hall).
      exists a, (c :: u). split; [done|]. by constructor.
    + exists a, []. split; [done|]. by repeat constructor.
Qed.

(** Whatever the matcher returns is what is left after a string of the
    pattern's language. *)
Lemma rmatch_sound r s rest :
  rest ∈ rmatch r s -> exists u, s = u ++ rest /\ lang r u.
Proof.
  revert s rest. induction r as [k | r1 IH1 r2 IH2 | r1 IH1 | k]; intros s rest; simpl.
  - destruct s as [|c t]; [intros H; by apply elem_of_nil in H|].
    destruct (in_class k c) eqn:Hc; [|intros H; by apply elem_of_nil in H].
    rewrite list_elem_of_singleton. intros ->.
    exists [c]. split; [done|]. by constructor.
  - rewrite list_elem_of_bind. intros (mid & H2 & H1).
    destruct (IH1 _ _ H1) as (u & -> & Hu).
    destruct (IH2 _ _ H2) as (v & -> & Hv).
    exists (u ++ v). split; [by rewrite <- app_assoc|]. by constructor.
  - rewrite elem_of_app, list_elem_of_singleton. intros [H | ->].
    + destruct (IH1 _ _ H) as (u & -> & Hu).
      exists u. split; [done|]. by constructor.
    + exists []. split; [done|]. apply lang_opt_none.
  - intros H. destruct (plus_class_sound _ _ _ H) as (c & u & -> & Hall).
    exists (c :: u). split; [done|]. by constructor.
Qed.

Lemma plus_class_complete k c u rest :
  Forall (fun x => in_class k x = true) (c :: u) ->
  rest ∈ plus_class k ((c :: u) ++ rest).
Proof.
  revert c. induction u as [|c' u IH]; intros c Hall;
    inversion Hall as [|? ? Hc Hu]; subst; simpl; rewrite Hc.
  - apply elem_of_app. right. by left.
  - apply elem_of_app. left. by apply IH.
Qed.

(** And the matcher finds every match: it returns what is left after any
    string of the pattern's language at the start of the input. *)
Lemma rmatch_complete r u rest : lang r u -> rest ∈ rmatch r (u ++ rest).
Proof.
  intros Hu. revert rest.
  induction Hu as [k c Hc | r1 r2 u v _ IH1 _ IH2 | r u _ IH | r | k c u Hall];
    intros rest; simpl.
  - rewrite Hc. by left.
  - apply list_elem_of_bind. exists (v ++ rest). split; [apply IH2|].
    rewrite <- app_assoc. apply IH1.
  - apply elem_of_app. left. apply IH.
  - apply elem_of_app. right. by left.
  - by apply (plus_class_complete k c u).
Qed.

Lemma re_sub_from_nil r k : re_sub_from r k [] = [].
Proof. by destruct k. Qed.

Lemma re_sub_from_skip r k c t :
  re_sub_from r (S k) (c :: t) = re_sub_from r k t.
Proof. reflexivity. Qed.

Lemma re_sub_from_scan r c t :
  re_sub_from r 0 (c :: t) =
  match re_match r (c :: t) with
  | Some (S k) => re_sub_from r k t
  | _ => c :: re_sub_from r 0 t
  end.
Proof. reflexivity. Qed.

(** Dropping the rest of a match is skipping that many characters. *)
Lemma re_sub_from_drop r k s : re_sub_from r k s = re_sub_from r 0 (drop k s).
Proof.
  revert s. induction k as [|k IH]; intros s; [done|].
  destruct s as [|c t]; [done|]. by rewrite re_sub_from_skip, IH.
Qed.

(** The substitution only drops characters. *)
Lemma re_sub_from_elem r k s x : x ∈ re_sub_from r k s -> x ∈ s.
Proof.
  revert k. induction s as [|c t IH]; intros k.
  - by rewrite re_sub_from_nil.
  - destruct k as [|k].
    + rewrite re_sub_from_scan.
      destruct (re_match r (c :: t)) as [[|n]|]; rewrite !elem_of_cons;
        intros H; try (destruct H as [H | H]; [by left|]);
        right; by apply IH in H.
    + rewrite re_sub_from_skip, elem_of_cons. intros H. right. by apply IH in H.
Qed.

Lemma re_sub_from_length r k s :
  (length (re_sub_from r k s) <= length s)%nat.
Proof.
  revert k. induction s as [|c t IH]; intros k.
  - by rewrite re_sub_from_nil.
  - destruct k as [|k].
    + rewrite re_sub_from_scan.
      destruct (re_match r (c :: t)) as [[|n]|]; simpl;
        try (specialize (IH 0%nat); lia).
      specialize (IH n). lia.
    + rewrite re_sub_from_skip. specialize (IH k). simpl. lia.
Qed.

(** A substitution that keeps the length dropped nothing. *)
Lemma re_sub_same_length r s :
  length (re_sub r s) = length s -> re_sub r s = s.
Proof.
  unfold re_sub. induction s as [|c t IH]; [done|].
  rewrite re_sub_from_scan.
  destruct (re_match r (c :: t)) as [[|n]|]; simpl; intros Hlen;
    try (f_equal; apply IH; lia).
  pose proof (re_sub_from_length r n t). lia.
Qed.

(** Where nothing matches, the substitution changes nothing. *)
Lemma re_sub_from_no_match r s :
  (forall u v, s = u ++ v -> forall k, re_match r v <> Some (S k)) ->
  re_sub_from r 0 s = s.
Proof.
  induction s as [|c t IH]; intros Hno; [done|].
  rewrite re_sub_from_scan.
  assert (re_sub_from r 0 t = t) as Ht.
  { apply IH. intros u v -> k. by apply (Hno (c :: u) v). }
  destruct (re_match r (c :: t)) as [[|n]|] eqn:E; rewrite ?Ht; try done.
  by destruct (Hno [] (c :: t) eq_refl n).
Qed.

(** *** The two patterns of the source *)

Lemma is_word_GT : is_word GT = false.
Proof. reflexivity. Qed.

Lemma rmatch_tag_re c t :
  rmatch tag_re (c :: t) =
  if c =? LT then plus_class (CNot GT) t ≫= rmatch (RClass (CChar GT)) else [].
Proof.
  unfold tag_re. cbn [rmatch in_class].
  destruct (c =? LT); [|done].
  by rewrite bind_singleton.
Qed.

(** On a run of characters other than ['>'] closed by a ['>'], the body of
    the tag pattern has exactly one match: the whole run and the ['>']. *)
Lemma tag_body_match x t :
  x <> GT -> GT ∈ t ->
  exists rest,
    plus_class (CNot GT) (x :: t) ≫= rmatch (RClass (CChar GT)) = [rest]
    /\ (length rest < length t)%nat.
Proof.
  revert x. induction t as [|c t IH]; intros x Hx Hin.
  - by apply elem_of_nil in Hin.
  - change (plus_class (CNot GT) (x :: c :: t))
      with (if negb (x =? GT)
            then plus_class (CNot GT) (c :: t) ++ [c :: t] else []).
    apply N.eqb_neq in Hx as ->. cbn [negb]. rewrite bind_app, bind_singleton.
    destruct (N.eq_dec c GT) as [-> | Hc].
    + exists t. split; [|simpl; lia]. reflexivity.
    + apply elem_of_cons in Hin as [Heq | Hin]; [congruence|].
      destruct (IH c Hc Hin) as (rest & -> & Hlen).
      exists rest. split; [|simpl; lia].
      cbn [rmatch in_class]. by apply N.eqb_neq in Hc as ->.
Qed.

(** The tag pattern matches wherever a tag opens. *)
Lemma tag_re_matches s :
  tag_start s -> exists k, re_match tag_re s = Some (S k).
Proof.
  intros (x & t & -> & Hx & Hin). unfold re_match.
  rewrite rmatch_tag_re. change (LT =? LT) with true. cbn match.
  destruct (tag_body_match x t Hx Hin) as (rest & -> & Hlen).
  exists (S (length t - length rest)). f_equal. simpl. lia.
Qed.

Lemma tag_re_no_match_GT t : re_match tag_re (GT :: t) = None.
Proof. unfold re_match. by rewrite rmatch_tag_re. Qed.

(** The mark pattern matches only where a tag opens. *)
Lemma mark_re_tag_start s n : re_match mark_re s = Some n -> tag_start s.
Proof.
  unfold re_match. destruct (rmatch mark_re s) as [|rest l] eqn:E; [done|].
  intros _. assert (rest ∈ rmatch mark_re s) as Hin by (rewrite E; left).
  apply rmatch_sound in Hin as (u & -> & Hu). unfold mark_re in Hu.
  inversion Hu as [| ? ? u1 u2 H1 H2 | | |]; subst.
  inversion H1; subst.
  match goal with H : in_class (CChar LT) _ = true |- _ =>
    apply N.eqb_eq in H; subst end.
  inversion H2 as [| ? ? u3 u4 H3 H4 | | |]; subst.
  inversion H4 as [| ? ? u5 u6 H5 H6 | | |]; subst.
  inversion H6; subst.
  match goal with H : in_class (CChar GT) _ = true |- _ =>
    apply N.eqb_eq in H; subst end.
  inversion H5 as [| | | | ? w ws Hall]; subst.
  apply Forall_cons in Hall as [Hw _].
  assert (w <> GT) as HwGT.
  { intros ->. cbn [in_class] in Hw. by rewrite is_word_GT in Hw. }
  inversion H3 as [| | ? ? H7 | |]; subst.
  - inversion H7; subst.
    match goal with H : in_class (CChar SLASH) _ = true |- _ =>
      apply N.eqb_eq in H; subst end.
    exists SLASH, ((w :: ws) ++ [GT] ++ rest). split; [|split].
    + simpl. by rewrite <- !app_assoc.
    + done.
    + rewrite !elem_of_app, list_elem_of_singleton. auto.
  - exists w, (ws ++ [GT] ++ rest). split; [|split].
    + simpl. by rewrite <- !app_assoc.
    + done.
    + rewrite !elem_of_app, list_elem_of_singleton. auto.
Qed.

(** After the tags are removed no tag opens anywhere in the line. *)
Lemma no_tag_start_after_tags k s : ~ tag_start (re_sub_from tag_re k s).
Proof.
  revert k. induction s as [|c t IH]; intros k.
  - rewrite re_sub_from_nil. by intros (x & t & ? & _).
  - destruct k as [|k]; [|apply IH].
    rewrite re_sub_from_scan.
    destruct (re_match tag_re (c :: t)) as [[|n]|] eqn:E; [|apply IH|].
    all: intros (x & r & Heq & Hx & Hin); injection Heq as -> Hr.
    all: assert (tag_start (LT :: t)) as Hts;
      [|apply tag_re_matches in Hts as [m Hm]; congruence].
    all: destruct t as [|x0 t0]; [by rewrite re_sub_from_nil in Hr|].
    all: destruct (N.eq_dec x0 GT) as [-> | Hx0];
      [rewrite re_sub_from_scan, tag_re_no_match_GT in Hr; congruence|].
    all: exists x0, t0; split; [done|]; split; [done|].
    all: assert (GT ∈ re_sub_from tag_re 0 (x0 :: t0)) as Hin'
      by (rewrite Hr; by right).
    all: apply re_sub_from_elem, elem_of_cons in Hin' as [Heq' | Hin'];
      [congruence | done].
Qed.

(** The second removal finds nothing to remove in the result of the first. *)
Lemma mark_after_tag k s :
  re_sub_from mark_re 0 (re_sub_from tag_re k s) = re_sub_from tag_re k s.
Proof.
  apply re_sub_from_no_match. intros u v Huv m Hm.
  apply mark_re_tag_start in Hm.
  revert k u Huv. induction s as [|c t IH]; intros k u Huv.
  - rewrite re_sub_from_nil in Huv. destruct u, v; try done.
    by destruct Hm as (? & ? & ? & _).
  - destruct k as [|k]; [|by apply (IH k u)].
    pose proof (no_tag_start_after_tags 0 (c :: t)) as Hno.
    rewrite re_sub_from_scan in Huv, Hno.
    destruct (re_match tag_re (c :: t)) as [[|n]|]; [|by apply (IH n u)|].
    all: destruct u as [|a u]; simpl in Huv; [by subst v|].
    all: injection Huv as _ Huv; by apply (IH 0%nat u).
Qed.

(** ** The loop *)

Lemma loop_body_cleaned st line :
  loop_body st line =
  match cleaned line with
  | Some c =>
      if bool_decide (c ∉ seen_lines st)
      then {| text_lines := text_lines st ++ [c];
              seen_lines := {[c]} ∪ seen_lines st |}
      else st
  | None => st
  end.
Proof.
  unfold loop_body, cleaned.
  destruct (is_header line), (is_timing line), (is_blank line); try done.
  cbn [orb]. by destruct (truthy (clean_text line)).
Qed.

Lemma foldl_loop_body lines st :
  text_lines (foldl loop_body st lines) =
  text_lines st ++ emitted (seen_lines st) lines.
Proof.
  revert st. induction lines as [|l ls IH]; intros st; simpl.
  - by rewrite app_nil_r.
  - rewrite IH, loop_body_cleaned. destruct (cleaned l) as [c|]; [|done].
    destruct (bool_decide (c ∉ seen_lines st)); [|done].
    simpl. by rewrite <- app_assoc.
Qed.

Lemma clean_lines_emitted s : clean_lines s = emitted ∅ (py_split_sep NL s).
Proof. unfold clean_lines. by rewrite foldl_loop_body. Qed.

Lemma emitted_elem seen lines c :
  c ∈ emitted seen lines <->
  (c ∉ seen) /\ exists l, l ∈ lines /\ cleaned l = Some c.
Proof.
  revert seen. induction lines as [|l0 ls IH]; intros seen; simpl.
  - split; [by intros ?%elem_of_nil|]. by intros [_ (l & ?%elem_of_nil & _)].
  - destruct (cleaned l0) as [c0|] eqn:E; [case_bool_decide as Hc0|].
    + rewrite elem_of_cons, IH. split.
      * intros [-> | [Hns (l & Hl & Hcl)]].
        -- split; [done|]. exists l0. split; [left | done].
        -- apply not_elem_of_union in Hns as [_ Hns].
           split; [done|]. exists l. split; [by right | done].
      * intros [Hns (l & Hl & Hcl)].
        destruct (decide (c = c0)) as [-> | Hne]; [by left|].
        right. split; [by apply not_elem_of_union, conj; [intros ?%elem_of_singleton|]|].
        apply elem_of_cons in Hl as [-> | Hl]; [congruence|]. eauto.
    + rewrite IH. split; intros [Hns (l & Hl & Hcl)]; (split; [done|]).
      * exists l. split; [by right | done].
      * apply elem_of_cons in Hl as [-> | Hl]; [|eauto].
        rewrite E in Hcl. injection Hcl as ->. by destruct Hns.
    + rewrite IH. split; intros [Hns (l & Hl & Hcl)]; (split; [done|]).
      * exists l. split; [by right | done].
      * apply elem_of_cons in Hl as [-> | Hl]; [congruence | eauto].
Qed.

Lemma emitted_NoDup seen lines : NoDup (emitted seen lines).
Proof.
  revert seen. induction lines as [|l ls IH]; intros seen; simpl.
  - constructor.
  - destruct (cleaned l) as [c|]; [case_bool_decide|]; try apply IH.
    apply NoDup_cons. split; [|apply IH].
    rewrite emitted_elem. intros [Hns _].
    apply not_elem_of_union in Hns as [Hns _]. by apply Hns, elem_of_singleton.
Qed.

Lemma first_index_next c l ls :
  cleaned l <> Some c -> first_index c (l :: ls) = S <$> first_index c ls.
Proof. intros Hne. simpl. by rewrite bool_decide_false. Qed.

Lemma first_index_is_Some c lines l :
  l ∈ lines -> cleaned l = Some c -> is_Some (first_index c lines).
Proof.
  induction lines as [|l0 ls IH]; [by intros ?%elem_of_nil|].
  intros Hl Hc. simpl. case_bool_decide; [done|].
  apply elem_of_cons in Hl as [-> | Hl]; [done|].
  destruct (IH Hl Hc) as [k ->]. done.
Qed.

(** In what the loop appends, an earlier line has the earlier first
    occurrence in the input. *)
Lemma emitted_order seen lines i j a b :
  emitted seen lines !! i = Some a -> emitted seen lines !! j = Some b ->
  (i < j)%nat ->
  exists i' j', first_index a lines = Some i' /\ first_index b lines = Some j'
                /\ (i' < j')%nat.
Proof.
  revert seen i j. induction lines as [|l ls IH]; intros seen i j; [done|].
  assert (forall sn k x, emitted sn ls !! k = Some x -> x ∉ sn) as Hfresh.
  { intros sn k x Hk. apply list_elem_of_lookup_2, emitted_elem in Hk. tauto. }
  assert (forall x i0 j0, cleaned l <> Some a -> cleaned l <> Some b ->
            emitted x ls !! i0 = Some a -> emitted x ls !! j0 = Some b ->
            (i0 < j0)%nat ->
            exists i' j', first_index a (l :: ls) = Some i'
                          /\ first_index b (l :: ls) = Some j' /\ (i' < j')%nat)
    as Hstep.
  { intros x i0 j0 Ha Hb Hi Hj Hlt.
    destruct (IH x i0 j0 Hi Hj Hlt) as (i' & j' & Hi' & Hj' & Hlt').
    exists (S i'), (S j'). rewrite !first_index_next, Hi', Hj' by done.
    repeat split; lia. }
  cbn [emitted]. destruct (cleaned l) as [c0|] eqn:E; [case_bool_decide as Hc0|].
  - assert (forall x, x ∉ {[c0]} ∪ seen -> Some c0 <> Some x) as Hnew.
    { intros x [Hx _]%not_elem_of_union [= ->]. by apply Hx, elem_of_singleton. }
    intros Hi Hj Hlt. destruct j as [|j]; [lia|]. cbn in Hj.
    pose proof (Hfresh _ _ _ Hj) as Hb.
    destruct i as [|i]; cbn in Hi.
    + injection Hi as ->.
      apply list_elem_of_lookup_2, emitted_elem in Hj as [_ (lb & Hlb & Hcb)].
      destruct (first_index_is_Some b ls lb Hlb Hcb) as [k Hk].
      exists 0%nat, (S k).
      rewrite (first_index_next b), Hk by (rewrite E; auto).
      repeat split; [|lia]. simpl. by rewrite E, bool_decide_true.
    + pose proof (Hfresh _ _ _ Hi) as Ha.
      apply (Hstep ({[c0]} ∪ seen) i j); auto; lia.
  - intros Hi Hj Hlt.
    pose proof (Hfresh _ _ _ Hi) as Ha. pose proof (Hfresh _ _ _ Hj) as Hb.
    apply (Hstep seen i j); try done; by intros [= ->].
  - intros Hi Hj Hlt. by apply (Hstep seen i j).
Qed.

Lemma emitted_all_skipped seen lines :
  Forall (fun l => cleaned l = None) lines -> emitted seen lines = [].
Proof.
  induction 1 as [|l ls Hl _ IH]; [done|]. simpl. by rewrite Hl.
Qed.

Lemma emitted_fixed seen lines :
  NoDup lines -> Forall (fun l => cleaned l = Some l /\ l ∉ seen) lines ->
  emitted seen lines = lines.
Proof.
  intros Hnd. revert seen. induction Hnd as [|l ls Hl Hnd IH]; intros seen Hall.
  - done.
  - inversion Hall as [|? ? [Hc Hns] Hls]; subst. simpl.
    rewrite Hc, bool_decide_true by done. f_equal. apply IH.
    apply Forall_forall. intros x Hx.
    rewrite Forall_forall in Hls. destruct (Hls x Hx) as [Hcx Hnx].
    split; [done|]. apply not_elem_of_union. split; [|done].
    intros ->%elem_of_singleton. done.
Qed.

Lemma emitted_length seen lines :
  (length (emitted seen lines) <= length lines)%nat.
Proof.
  revert seen. induction lines as [|l ls IH]; intros seen; simpl; [done|].
  destruct (cleaned l) as [c|]; [case_bool_decide|]; simpl.
  - specialize (IH ({[c]} ∪ seen)). lia.
  - specialize (IH seen). lia.
  - specialize (IH seen). lia.
Qed.

(** The loop reproduces a list of lines only if each is its own cleaned
    text. *)
Lemma emitted_fixed_inv seen lines :
  emitted seen lines = lines -> Forall (fun l => cleaned l = Some l) lines.
Proof.
  revert seen. induction lines as [|l ls IH]; intros seen; simpl; [done|].
  destruct (cleaned l) as [c|] eqn:E; [case_bool_decide|].
  - intros [= -> Hls]. constructor; [done | by apply (IH _ Hls)].
  - intros Heq. pose proof (emitted_length seen ls) as Hlen.
    rewrite Heq in Hlen. simpl in Hlen. lia.
  - intros Heq. pose proof (emitted_length seen ls) as Hlen.
    rewrite Heq in Hlen. simpl in Hlen. lia.
Qed.

Lemma cleaned_Some l c :
  cleaned l = Some c <->
  is_header l = false /\ is_timing l = false /\ is_blank l = false
  /\ clean_text l = c /\ c <> [].
Proof.
  unfold cleaned.
  destruct (is_header l), (is_timing l), (is_blank l); cbn [orb];
    try (split; [done | by intros (? & ? & ? & _)]).
  destruct (clean_text l) as [|x t] eqn:E; cbn [truthy].
  - split; [done|]. by intros (_ & _ & _ & <- & ?).
  - split; [by intros [= <-] | by intros (_ & _ & _ & <- & _)].
Qed.

Lemma clean_lines_elem s c :
  c ∈ clean_lines s <-> exists l, l ∈ py_split_sep NL s /\ cleaned l = Some c.
Proof.
  rewrite clean_lines_emitted, emitted_elem. split; [by intros [_ ?]|].
  intros H. split; [apply not_elem_of_empty | done].
Qed.

(** ** Shape of the cleaned lines *)

Lemma clean_text_words l :
  exists ws, Forall word ws /\ clean_text l = py_join [SP] ws.
Proof.
  exists (py_split (strip_marks (strip_tags l))).
  split; [apply py_split_words | done].
Qed.

Lemma words_ws_normalized ws :
  Forall word ws -> ws_normalized (py_join [SP] ws).
Proof.
  intros Hall. pose proof (py_join_words_spaces ws Hall) as Hsp.
  rewrite Forall_forall in Hsp.
  repeat split.
  - by apply py_strip_words.
  - intros Hin. by specialize (Hsp _ Hin eq_refl).
  - intros Hin. by specialize (Hsp _ Hin eq_refl).
  - by apply py_join_words_no_double_space.
Qed.

Lemma words_not_blank ws :
  Forall word ws -> py_join [SP] ws <> [] -> is_blank (py_join [SP] ws) = false.
Proof.
  intros Hall Hne. unfold is_blank. rewrite py_strip_words by done.
  by destruct (py_join [SP] ws).
Qed.

(** A collapsed line is not changed by collapsing it again. *)
Lemma collapse_ws_words ws :
  Forall word ws -> collapse_ws (py_join [SP] ws) = py_join [SP] ws.
Proof. intros Hall. unfold collapse_ws. by rewrite py_split_join. Qed.

Lemma collapse_ws_not_blank l : is_blank l = false -> collapse_ws l <> [].
Proof.
  unfold is_blank, collapse_ws. intros Hb Hnil.
  apply py_join_words_nil in Hnil; [|apply py_split_words].
  apply split_ws_nil in Hnil as [_ Hsp]. apply py_strip_nil in Hsp.
  by rewrite Hsp in Hb.
Qed.

Lemma clean_lines_words s :
  Forall (fun c => c <> [] /\ exists ws, Forall word ws /\ c = py_join [SP] ws)
    (clean_lines s).
Proof.
  apply Forall_forall. intros c (l & _ & Hc)%clean_lines_elem.
  apply cleaned_Some in Hc as (_ & _ & _ & <- & Hne).
  split; [done | apply clean_text_words].
Qed.

Lemma clean_lines_no_newline s : Forall (fun c => NL ∉ c) (clean_lines s).
Proof.
  eapply Forall_impl; [apply clean_lines_words|].
  intros c (_ & ws & Hws & ->). by apply words_ws_normalized.
Qed.

(** The lines of the returned text are the lines the loop appended, when
    there are any; the empty text splits into one empty line. *)
Lemma output_lines s :
  py_split_sep NL (clean_vtt_subtitle s) =
  match clean_lines s with [] => [[]] | _ => clean_lines s end.
Proof.
  unfold clean_vtt_subtitle. pose proof (clean_lines_no_newline s) as Hnl.
  destruct (clean_lines s) as [|l ls]; [done|]. by apply py_split_sep_join.
Qed.

(** ** The properties of the specification *)

(** C1. No line of the output occurs twice, and the output lines stand in the
    order in which their cleaned text first occurs among the input lines:
    the output holds exactly the cleaned texts of the input lines, and of two
    output lines the earlier one has the earlier first occurrence. *)
Theorem clean_output_distinct_in_first_occurrence_order (s : str) :
  let lines := py_split_sep NL s in
  let out := clean_lines s in
  clean_vtt_subtitle s = py_join [NL] out
  /\ NoDup out
  /\ NoDup (py_split_sep NL (clean_vtt_subtitle s))
  /\ (forall c, c ∈ out <-> exists l, l ∈ lines /\ cleaned l = Some c)
  /\ (forall i j a b,
        out !! i = Some a -> out !! j = Some b -> (i < j)%nat ->
        exists i' j', first_index a lines = Some i'
                      /\ first_index b lines = Some j' /\ (i' < j')%nat).
Proof.
  cbv zeta. assert (NoDup (clean_lines s)) as Hnd.
  { rewrite clean_lines_emitted. apply emitted_NoDup. }
  repeat split.
  - done.
  - rewrite output_lines. destruct (clean_lines s); [|done].
    apply NoDup_singleton.
  - by intros ?%clean_lines_elem.
  - by intros ?%clean_lines_elem.
  - rewrite clean_lines_emitted. apply emitted_order.
Qed.

(** C2, as amended. When no line of the output starts with a header keyword,
    holds a timing arrow or holds a tag, cleaning the output again returns it
    unchanged. *)
Theorem clean_idempotent_on_stable_output (s : str) :
  Forall (fun l => is_header l = false /\ is_timing l = false
                   /\ strip_tags l = l) (clean_lines s) ->
  clean_vtt_subtitle (clean_vtt_subtitle s) = clean_vtt_subtitle s.
Proof.
  intros Hstable. unfold clean_vtt_subtitle at 1 3. f_equal.
  rewrite (clean_lines_emitted (clean_vtt_subtitle s)), output_lines.
  pose proof (clean_lines_words s) as Hwords.
  assert (NoDup (clean_lines s)) as Hnd.
  { rewrite clean_lines_emitted. apply emitted_NoDup. }
  destruct (clean_lines s) as [|l ls] eqn:E; [done|].
  apply emitted_fixed; [done|].
  rewrite Forall_forall in Hstable, Hwords. apply Forall_forall. intros c Hc.
  destruct (Hstable c Hc) as (Hh & Ht & Htag).
  destruct (Hwords c Hc) as (Hne & ws & Hws & ->).
  split; [|apply not_elem_of_empty].
  apply cleaned_Some. repeat split; try done.
  - by apply words_not_blank.
  - unfold clean_text, strip_marks. rewrite <- Htag at 2.
    unfold strip_tags, re_sub. rewrite mark_after_tag.
    fold (re_sub tag_re (py_join [SP] ws)). fold (strip_tags (py_join [SP] ws)).
    rewrite Htag. by apply collapse_ws_words.
Qed.

(** A line that is its own cleaned text holds no tag: the collapse cannot
    give back what a tag removal took. *)
Lemma clean_text_fixed_no_tag l : clean_text l = l -> strip_tags l = l.
Proof.
  intros Hfix. apply re_sub_same_length.
  pose proof (collapse_ws_length (strip_marks (strip_tags l))) as H1.
  pose proof (re_sub_from_length mark_re 0 (strip_tags l)) as H2.
  pose proof (re_sub_from_length tag_re 0 l) as H3.
  unfold clean_text in Hfix. rewrite Hfix in H1.
  unfold strip_marks, strip_tags, re_sub in *. lia.
Qed.

(** The condition of the amended C2 is also necessary: where cleaning the
    output again returns it unchanged, no output line starts with a header
    keyword, holds a timing arrow or holds a tag. *)
Lemma clean_idempotent_only_on_stable_output (s : str) :
  clean_vtt_subtitle (clean_vtt_subtitle s) = clean_vtt_subtitle s ->
  Forall (fun l => is_header l = false /\ is_timing l = false
                   /\ strip_tags l = l) (clean_lines s).
Proof.
  intros Hidem.
  assert (clean_lines (clean_vtt_subtitle s) = clean_lines s) as Hlines.
  { pose proof (clean_lines_no_newline (clean_vtt_subtitle s)) as Hnl1.
    pose proof (clean_lines_no_newline s) as Hnl2.
    pose proof (clean_lines_words (clean_vtt_subtitle s)) as Hw1.
    pose proof (clean_lines_words s) as Hw2.
    unfold clean_vtt_subtitle at 1 3 in Hidem.
    destruct (clean_lines (clean_vtt_subtitle s)) as [|a la],
             (clean_lines s) as [|b lb]; [done| | |].
    - inversion Hw2 as [|? ? [Hb _] _]; subst.
      by destruct (py_join_nil_inv [NL] b lb Hb).
    - inversion Hw1 as [|? ? [Ha _] _]; subst.
      by destruct (py_join_nil_inv [NL] a la Ha).
    - rewrite <- (py_split_sep_join a la), <- (py_split_sep_join b lb) by done.
      by rewrite Hidem. }
  rewrite clean_lines_emitted, output_lines in Hlines.
  destruct (clean_lines s) as [|l ls] eqn:E; [constructor|].
  apply emitted_fixed_inv in Hlines.
  eapply Forall_impl; [exact Hlines|]. intros c Hc. simpl in Hc.
  apply cleaned_Some in Hc as (Hh & Ht & _ & Hfix & _).
  repeat split; try done. by apply clean_text_fixed_no_tag.
Qed.

(** C3, as amended. A line that starts with [WEBVTT], [Kind:] or [Language:]
    leaves the loop state as it is, and every output line is the cleaned text
    of an input line that starts with none of them. *)
Theorem header_lines_discarded :
  (forall st rest, loop_body st (lit "WEBVTT" ++ rest) = st
                   /\ loop_body st (lit "Kind:" ++ rest) = st
                   /\ loop_body st (lit "Language:" ++ rest) = st)
  /\ (forall s c, c ∈ clean_lines s ->
        exists l, l ∈ py_split_sep NL s
                  /\ startswith (lit "WEBVTT") l = false
                  /\ startswith (lit "Kind:") l = false
                  /\ startswith (lit "Language:") l = false
                  /\ clean_text l = c).
Proof.
  split.
  - assert (forall st l, is_header l = true -> loop_body st l = st) as Hskip.
    { intros st l Hl. unfold loop_body. by rewrite Hl. }
    intros st rest. unfold is_header in Hskip.
    split; [|split]; apply Hskip; rewrite !orb_true_iff.
    + left. left. apply startswith_spec. by exists rest.
    + left. right. apply startswith_spec. by exists rest.
    + right. apply startswith_spec. by exists rest.
  - intros s c (l & Hl & Hc)%clean_lines_elem.
    apply cleaned_Some in Hc as (Hh & _ & _ & Hc & _).
    unfold is_header in Hh. rewrite !orb_false_iff in Hh.
    destruct Hh as [[? ?] ?]. by exists l.
Qed.

(** C4, as amended. A line that holds the arrow [-->] leaves the loop state
    as it is, whatever else it holds, and every output line is the cleaned
    text of an input line without the arrow. *)
Theorem timing_lines_discarded :
  (forall st before after, loop_body st (before ++ lit "-->" ++ after) = st)
  /\ (forall s c, c ∈ clean_lines s ->
        exists l, l ∈ py_split_sep NL s
                  /\ contains (lit "-->") l = false /\ clean_text l = c).
Proof.
  split.
  - intros st before after. unfold loop_body.
    assert (is_timing (before ++ lit "-->" ++ after) = true) as ->.
    { apply contains_spec. by exists before, after. }
    by destruct (is_header _).
  - intros s c (l & Hl & Hc)%clean_lines_elem.
    apply cleaned_Some in Hc as (_ & Ht & _ & Hc & _). by exists l.
Qed.

(** C5. The second tag removal ([</?\w+>]) never changes the result of the
    first ([<[^>]+>]): both passes together equal the first pass alone. *)
Theorem second_tag_pass_redundant (line : str) :
  re_sub mark_re (re_sub tag_re line) = re_sub tag_re line.
Proof. apply mark_after_tag. Qed.

(** Lines made of whitespace, header lines and timing lines add nothing. *)
Lemma blank_line_cleaned l :
  Forall (fun c => isspace c = true) l -> cleaned l = None.
Proof.
  intros Hsp. apply py_strip_nil in Hsp. unfold cleaned, is_blank.
  rewrite Hsp. cbn [truthy negb]. by rewrite orb_true_r.
Qed.

Lemma clean_lines_in s l :
  l ∈ py_split_sep NL s -> is_header l = false -> is_timing l = false ->
  is_blank l = false -> clean_text l <> [] -> clean_text l ∈ clean_lines s.
Proof.
  intros Hl Hh Ht Hb Hne. apply clean_lines_elem. exists l. split; [done|].
  by apply cleaned_Some.
Qed.

(** C6. The cleaner is a total function of its input: for every string it
    returns the lines the loop appended, joined by newlines, and no step of
    it can fail.  An input line that is neither a header line, nor a timing
    line, nor blank is cleaned by the tag removal and the whitespace collapse
    alone, and what is left of it is in the output; a line without tags is
    there as its collapsed text. *)
Theorem clean_total_passes_text_through (s : str) :
  (exists out, clean_vtt_subtitle s = out
               /\ out = py_join [NL] (emitted ∅ (py_split_sep NL s)))
  /\ forall l, l ∈ py_split_sep NL s ->
       is_header l = false -> is_timing l = false -> is_blank l = false ->
       clean_text l = collapse_ws (strip_tags l)
       /\ (clean_text l <> [] -> clean_text l ∈ clean_lines s)
       /\ (strip_tags l = l ->
             collapse_ws l <> [] /\ collapse_ws l ∈ clean_lines s).
Proof.
  split.
  - exists (clean_vtt_subtitle s). split; [done|].
    unfold clean_vtt_subtitle. by rewrite clean_lines_emitted.
  - intros l Hl Hh Ht Hb.
    assert (clean_text l = collapse_ws (strip_tags l)) as Hct.
    { unfold clean_text, strip_marks, strip_tags, re_sub.
      by rewrite mark_after_tag. }
    split; [done|]. split; [by apply clean_lines_in|].
    intros Htag. rewrite Htag in Hct.
    pose proof (collapse_ws_not_blank l Hb) as Hne.
    split; [done|]. rewrite <- Hct. apply clean_lines_in; try done.
    by rewrite Hct.
Qed.

(** An input of header lines, timing lines and blank lines only is cleaned
    to the empty string. *)
Lemma skipped_input_empty_output (s : str) :
  Forall (fun l => is_header l || is_timing l || is_blank l = true)
    (py_split_sep NL s) ->
  clean_vtt_subtitle s = [].
Proof.
  intros Hall. unfold clean_vtt_subtitle.
  rewrite clean_lines_emitted, emitted_all_skipped; [done|].
  eapply Forall_impl; [exact Hall|]. intros l Hl. unfold cleaned.
  by rewrite Hl.
Qed.

(** C7. When the cleaned text is the empty string, the statistics of [main]
    are a line count of 1 and a character count of 0. *)
Theorem empty_output_statistics (s : str) :
  clean_vtt_subtitle s = [] ->
  line_count (clean_vtt_subtitle s) = 1%nat
  /\ char_count (clean_vtt_subtitle s) = 0%nat.
Proof. by intros ->. Qed.

(** C8. The output is the appended lines joined by single newlines; every
    appended line is non-empty and not blank, so a non-empty output has no
    blank line; a line that is empty or all whitespace leaves the loop state
    as it is, and every output line comes from an input line that is not
    blank. *)
Theorem clean_output_no_blank_lines (s : str) :
  clean_vtt_subtitle s = py_join [NL] (clean_lines s)
  /\ Forall (fun l => l <> [] /\ is_blank l = false) (clean_lines s)
  /\ (clean_vtt_subtitle s <> [] ->
        Forall (fun l => l <> [] /\ is_blank l = false)
          (py_split_sep NL (clean_vtt_subtitle s)))
  /\ (forall st l, Forall (fun c => isspace c = true) l -> loop_body st l = st)
  /\ (forall c, c ∈ clean_lines s ->
        exists l, l ∈ py_split_sep NL s /\ is_blank l = false
                  /\ clean_text l = c).
Proof.
  assert (Forall (fun l => l <> [] /\ is_blank l = false) (clean_lines s))
    as Hlines.
  { eapply Forall_impl; [apply clean_lines_words|].
    intros c (Hne & ws & Hws & ->). split; [done | by apply words_not_blank]. }
  split; [done|]. split; [done|]. split; [|split].
  - intros Hne. rewrite output_lines.
    destruct (clean_lines s) eqn:E; [|done].
    unfold clean_vtt_subtitle in Hne. by rewrite E in Hne.
  - intros st l Hsp. rewrite loop_body_cleaned. by rewrite blank_line_cleaned.
  - intros c (l & Hl & Hc)%clean_lines_elem.
    apply cleaned_Some in Hc as (_ & _ & Hb & Hc & _). by exists l.
Qed.

(** C9. Every line of the output is whitespace-normalized: nothing to strip
    at its ends, no tab, no newline, no two spaces in a row. *)
Theorem clean_output_ws_normalized (s : str) :
  Forall ws_normalized (clean_lines s)
  /\ Forall ws_normalized (py_split_sep NL (clean_vtt_subtitle s)).
Proof.
  assert (Forall ws_normalized (clean_lines s)) as Hlines.
  { eapply Forall_impl; [apply clean_lines_words|].
    intros c (_ & ws & Hws & ->). by apply words_ws_normalized. }
  split; [done|]. rewrite output_lines.
  destruct (clean_lines s); [|done].
  constructor; [|constructor]. apply (words_ws_normalized []). constructor.
Qed.

(** C10. An input all of whose lines are made of whitespace only, the
    empty input among them, is cleaned to the empty string. *)
Theorem clean_blank_input_empty (s : str) :
  Forall (fun l => Forall (fun c => isspace c = true) l) (py_split_sep NL s) ->
  clean_vtt_subtitle s = [].
Proof.
  intros Hall. unfold clean_vtt_subtitle.
  rewrite clean_lines_emitted, emitted_all_skipped; [done|].
  eapply Forall_impl; [exact Hall|]. apply blank_line_cleaned.
Qed.

(** ** Further properties of the cleaner *)

(** *** No tag is left in the output *)

(** The tag pattern matches only where a tag opens. *)
Lemma tag_re_tag_start s n : re_match tag_re s = Some n -> tag_start s.
Proof.
  unfold re_match. destruct (rmatch tag_re s) as [|rest l] eqn:E; [done|].
  intros _. assert (rest ∈ rmatch tag_re s) as Hin by (rewrite E; left).
  apply rmatch_sound in Hin as (u & -> & Hu). unfold tag_re in Hu.
  inversion Hu as [| ? ? u1 u2 H1 H2 | | |]; subst.
  inversion H1; subst.
  match goal with H : in_class (CChar LT) _ = true |- _ =>
    apply N.eqb_eq in H; subst end.
  inversion H2 as [| ? ? u3 u4 H3 H4 | | |]; subst.
  inversion H4; subst.
  match goal with H : in_class (CChar GT) _ = true |- _ =>
    apply N.eqb_eq in H; subst end.
  inversion H3 as [| | | | ? x xs Hall]; subst.
  apply Forall_cons in Hall as [Hx _]. cbn [in_class] in Hx.
  apply negb_true_iff, N.eqb_neq in Hx.
  exists x, (xs ++ [GT] ++ rest). split; [|split; [done|]].
  - simpl. by rewrite <- !app_assoc.
  - rewrite !elem_of_app, list_elem_of_singleton. auto.
Qed.

(** A string of the tag pattern's language opens a tag wherever it stands. *)
Lemma lang_tag_re_tag_start w v : lang tag_re w -> tag_start (w ++ v).
Proof.
  intros Hw. pose proof (rmatch_complete tag_re w v Hw) as Hin.
  destruct (re_match tag_re (w ++ v)) as [n|] eqn:E;
    [by apply (tag_re_tag_start _ n)|].
  unfold re_match in E.
  destruct (rmatch tag_re (w ++ v)); [by apply elem_of_nil in Hin | done].
Qed.

Lemma tag_free_after_tags k s : tag_free (re_sub_from tag_re k s).
Proof.
  intros u v Huv Hts.
  revert k u Huv. induction s as [|c t IH]; intros k u Huv.
  - rewrite re_sub_from_nil in Huv. destruct u, v; try done.
    by destruct Hts as (? & ? & ? & _).
  - destruct k as [|k]; [|by apply (IH k u)].
    pose proof (no_tag_start_after_tags 0 (c :: t)) as Hno.
    rewrite re_sub_from_scan in Huv, Hno.
    destruct (re_match tag_re (c :: t)) as [[|n]|]; [|by apply (IH n u)|].
    all: destruct u as [|a u]; simpl in Huv; [by subst v|].
    all: injection Huv as _ Huv; by apply (IH 0%nat u).
Qed.

(** Neither removal changes a line in which no tag opens. *)
Lemma tag_free_fixed l : tag_free l -> strip_tags l = l /\ strip_marks l = l.
Proof.
  intros Hfree. split; apply re_sub_from_no_match; intros u v Huv k Hm.
  - apply tag_re_tag_start in Hm. by apply (Hfree u v).
  - apply mark_re_tag_start in Hm. by apply (Hfree u v).
Qed.

Lemma ws_squeeze_elem l o c :
  ws_squeeze l o -> c ∈ o ->
  c ∈ l \/ (c = SP /\ Exists (fun w => isspace w = true) l).
Proof.
  induction 1 as [|a l o Ha Hsq IH|a l o Ha Hsq IH|a l o Ha Hsq IH];
    intros Hc.
  - by apply elem_of_nil in Hc.
  - apply elem_of_cons in Hc as [-> | Hc]; [left; by left|].
    destruct (IH Hc) as [? | [? ?]]; [left; by right|].
    right. split; [done | by apply Exists_cons_tl].
  - destruct (IH Hc) as [? | [? ?]]; [left; by right|].
    right. split; [done | by apply Exists_cons_tl].
  - apply elem_of_cons in Hc as [-> | Hc];
      [right; split; [done | by apply Exists_cons_hd]|].
    destruct (IH Hc) as [? | [? ?]]; [left; by right|].
    right. split; [done | by apply Exists_cons_tl].
Qed.

(** Squeezing the whitespace of a line opens no tag in it. *)
Lemma ws_squeeze_tag_start l o :
  ws_squeeze l o -> forall u v, o = u ++ v -> tag_start v ->
  exists u' v', l = u' ++ v' /\ tag_start v'.
Proof.
  induction 1 as [|c l o Hc Hsq IH|c l o Hc Hsq IH|c l o Hc Hsq IH];
    intros u v Huv Hts.
  - destruct u, v; try done. by destruct Hts as (? & ? & ? & _).
  - destruct u as [|a u]; simpl in Huv.
    + subst v. destruct Hts as (x & t & [= -> ->] & Hx & Hin).
      assert (GT ∈ l) as HinL.
      { destruct (ws_squeeze_elem l (x :: t) GT Hsq) as [? | [? _]];
          [by right | done | done]. }
      exists [], (LT :: l). split; [done|].
      destruct l as [|y l']; [by apply elem_of_nil in HinL|].
      exists y, l'. split; [done|].
      assert (y <> GT) as Hy.
      { intros ->. by inversion Hsq; subst. }
      split; [done|]. by apply elem_of_cons in HinL as [? | ?].
    + injection Huv as -> ->.
      destruct (IH u v eq_refl Hts) as (u' & v' & -> & Hts').
      by exists (a :: u'), v'.
  - destruct (IH u v Huv Hts) as (u' & v' & -> & Hts').
    by exists (c :: u'), v'.
  - destruct u as [|a u]; simpl in Huv.
    + subst v. by destruct Hts as (x & t & [= ? ?] & _).
    + injection Huv as _ ->.
      destruct (IH u v eq_refl Hts) as (u' & v' & -> & Hts').
      by exists (c :: u'), v'.
Qed.

Lemma split_ws_squeeze s w :
  exists o, py_join [SP] (split_ws w s) = w ++ o /\ ws_squeeze s o.
Proof.
  revert w. induction s as [|c s IH]; intros w; simpl.
  - exists []. split; [|constructor]. rewrite app_nil_r. by destruct w.
  - destruct (isspace c) eqn:Hc.
    + destruct (IH []) as (o & Ho & Hsq). simpl in Ho.
      destruct w as [|x w]; [exists o; split; [done | by constructor]|].
      destruct (split_ws [] s) as [|q ws] eqn:E.
      * exists []. split; [by rewrite app_nil_r|].
        simpl in Ho. subst o. by constructor.
      * exists (SP :: o). split; [|by apply squeeze_space].
        rewrite py_join_cons, Ho. done.
    + destruct (IH (w ++ [c])) as (o & Ho & Hsq).
      exists (c :: o). split; [by rewrite Ho, <- app_assoc | by constructor].
Qed.

(** The whitespace collapse is one way to squeeze the whitespace. *)
Lemma collapse_ws_squeeze l : ws_squeeze l (collapse_ws l).
Proof.
  destruct (split_ws_squeeze l []) as (o & Ho & Hsq).
  unfold collapse_ws, py_split. by rewrite Ho.
Qed.

Lemma clean_text_tag_free l : tag_free (clean_text l).
Proof.
  unfold clean_text, strip_marks, strip_tags, re_sub.
  rewrite mark_after_tag. intros u v Huv Hts.
  destruct (ws_squeeze_tag_start _ _ (collapse_ws_squeeze _) u v Huv Hts)
    as (u' & v' & Huv' & Hts').
  by apply (tag_free_after_tags 0 l u' v').
Qed.

(** No tag is left in the output: neither removal would change an output
    line, and no part of an output line is a string of the tag pattern. *)
Theorem output_lines_tag_free (s : str) :
  Forall (fun l => strip_tags l = l /\ strip_marks l = l
                   /\ forall u w v, l = u ++ w ++ v -> ~ lang tag_re w)
    (clean_lines s).
Proof.
  apply Forall_forall. intros c (l & _ & Hc)%clean_lines_elem.
  apply cleaned_Some in Hc as (_ & _ & _ & <- & _).
  pose proof (clean_text_tag_free l) as Hfree.
  destruct (tag_free_fixed _ Hfree) as [Ht Hm].
  split; [done|]. split; [done|]. intros u w v Huwv Hw.
  apply (Hfree u (w ++ v) Huwv). by apply lang_tag_re_tag_start.
Qed.

(** *** Cleaning the output again *)

Lemma filter_fixed {A} (P : A -> Prop) `{forall x, Decision (P x)} (l : list A) :
  Forall P l -> filter P l = l.
Proof.
  induction 1 as [|x l Hx _ IH]; [done|].
  by rewrite filter_cons_True, IH.
Qed.

Lemma filter_fixed_inv {A} (P : A -> Prop) `{forall x, Decision (P x)}
    (l : list A) :
  filter P l = l -> Forall P l.
Proof.
  intros Heq. apply Forall_forall. intros x Hx.
  destruct (decide (P x)) as [|Hn]; [done|].
  pose proof (length_filter_lt P l x Hx Hn) as Hlt. rewrite Heq in Hlt. lia.
Qed.

(** An output line is its own cleaned text, unless it is one the loop
    skips. *)
Lemma cleaned_output_line s c :
  c ∈ clean_lines s ->
  cleaned c = if is_header c || is_timing c then None else Some c.
Proof.
  intros Hc. pose proof (clean_lines_words s) as Hw.
  rewrite Forall_forall in Hw. destruct (Hw c Hc) as (Hne & ws & Hws & ->).
  assert (clean_text (py_join [SP] ws) = py_join [SP] ws) as Hfix.
  { apply clean_lines_elem in Hc as (l & _ & Hl).
    apply cleaned_Some in Hl as (_ & _ & _ & Hl & _).
    pose proof (clean_text_tag_free l) as Hfree. rewrite Hl in Hfree.
    destruct (tag_free_fixed _ Hfree) as [Ht Hm].
    unfold clean_text. rewrite Ht, Hm. by apply collapse_ws_words. }
  unfold cleaned. rewrite Hfix, words_not_blank by done.
  rewrite orb_false_r. destruct (is_header _ || is_timing _); [done|].
  by destruct (py_join [SP] ws).
Qed.

Lemma emitted_filter seen lines :
  NoDup lines ->
  Forall (fun l => (l ∉ seen) /\
            cleaned l = if is_header l || is_timing l then None else Some l)
    lines ->
  emitted seen lines =
  filter (fun l => is_header l = false /\ is_timing l = false) lines.
Proof.
  intros Hnd. revert seen. induction Hnd as [|l ls Hl Hnd IH]; intros seen Hall.
  - done.
  - inversion Hall as [|? ? [Hns Hc] Hls]; subst. simpl. rewrite Hc.
    destruct (is_header l) eqn:Hh; [|destruct (is_timing l) eqn:Ht]; cbn [orb].
    + rewrite filter_cons_False by (intros [? _]; congruence). by apply IH.
    + rewrite filter_cons_False by (intros [_ ?]; congruence). by apply IH.
    + rewrite bool_decide_true, filter_cons_True by done. f_equal. apply IH.
      rewrite Forall_forall in Hls. apply Forall_forall. intros x Hx.
      destruct (Hls x Hx) as [Hxs Hxc]. split; [|done].
      apply not_elem_of_union. split; [|done].
      intros ->%elem_of_singleton. done.
Qed.

(** The lines of a second run are the lines of the first that the skip
    tests let through. *)
Lemma clean_lines_again s :
  clean_lines (clean_vtt_subtitle s) =
  filter (fun l => is_header l = false /\ is_timing l = false) (clean_lines s).
Proof.
  rewrite (clean_lines_emitted (clean_vtt_subtitle s)), output_lines.
  pose proof (cleaned_output_line s) as Hcl.
  assert (NoDup (clean_lines s)) as Hnd.
  { rewrite clean_lines_emitted. apply emitted_NoDup. }
  destruct (clean_lines s) as [|l ls] eqn:E; [done|].
  apply emitted_filter; [done|]. apply Forall_forall. intros c Hc.
  split; [apply not_elem_of_empty | by apply Hcl].
Qed.

(** Two inputs with the same cleaned text have the same output lines. *)
Lemma clean_lines_inj s1 s2 :
  clean_vtt_subtitle s1 = clean_vtt_subtitle s2 ->
  clean_lines s1 = clean_lines s2.
Proof.
  intros Heq. unfold clean_vtt_subtitle in Heq.
  pose proof (clean_lines_no_newline s1) as Hnl1.
  pose proof (clean_lines_no_newline s2) as Hnl2.
  pose proof (clean_lines_words s1) as Hw1.
  pose proof (clean_lines_words s2) as Hw2.
  destruct (clean_lines s1) as [|a la], (clean_lines s2) as [|b lb]; [done| | |].
  - inversion Hw2 as [|? ? [Hb _] _]; subst.
    by destruct (py_join_nil_inv [NL] b lb Hb).
  - inversion Hw1 as [|? ? [Ha _] _]; subst.
    by destruct (py_join_nil_inv [NL] a la Ha).
  - rewrite <- (py_split_sep_join a la), <- (py_split_sep_join b lb) by done.
    by rewrite Heq.
Qed.

(** A second run of the cleaner only drops lines: its output lines are the
    output lines of the first run that neither start with a header keyword
    nor hold the arrow, unchanged and in the same order. *)
Theorem second_run_only_filters (s : str) :
  clean_lines (clean_vtt_subtitle s) =
  filter (fun l => is_header l = false /\ is_timing l = false) (clean_lines s).
Proof. apply clean_lines_again. Qed.

(** The cleaner reaches a fixed point after two runs: a third run changes
    nothing. *)
Theorem third_run_changes_nothing (s : str) :
  clean_vtt_subtitle (clean_vtt_subtitle (clean_vtt_subtitle s)) =
  clean_vtt_subtitle (clean_vtt_subtitle s).
Proof.
  unfold clean_vtt_subtitle at 1 4. f_equal.
  rewrite (clean_lines_again (clean_vtt_subtitle s)), (clean_lines_again s).
  apply filter_fixed, Forall_forall. by intros x [? _]%list_elem_of_filter.
Qed.

(** A second run returns the text of the first exactly when no output line
    starts with a header keyword or holds the arrow. *)
Theorem second_run_same_iff (s : str) :
  clean_vtt_subtitle (clean_vtt_subtitle s) = clean_vtt_subtitle s <->
  Forall (fun l => is_header l = false /\ is_timing l = false) (clean_lines s).
Proof.
  split.
  - intros Heq%clean_lines_inj. rewrite clean_lines_again in Heq.
    by apply filter_fixed_inv in Heq.
  - intros Hall. unfold clean_vtt_subtitle at 1 3. f_equal.
    rewrite clean_lines_again. by apply filter_fixed.
Qed.

(** *** Sizes *)

Lemma py_split_sep_cons_inv sep s : exists l ls, py_split_sep sep s = l :: ls.
Proof.
  induction s as [|c s (l & ls & IH)]; simpl; [by eexists _, _|].
  destruct (c =? sep); [by eexists _, _|]. rewrite IH. by eexists _, _.
Qed.

(** Joining the lines of a text gives the text back. *)
Lemma py_join_split_sep s : py_join [NL] (py_split_sep NL s) = s.
Proof.
  induction s as [|c s IH]; [done|]. simpl.
  destruct (py_split_sep_cons_inv NL s) as (l & ls & E). rewrite E in IH |- *.
  destruct (c =? NL) eqn:Hc.
  - apply N.eqb_eq in Hc as ->. rewrite py_join_cons, IH. done.
  - destruct ls as [|l' ls]; simpl in *; by rewrite IH.
Qed.

Lemma py_join_length ls :
  length (py_join [NL] ls)
  = (sum_list_with (fun l => S (length l)) ls - 1)%nat.
Proof.
  induction ls as [|p ls IH]; [done|].
  destruct ls as [|q ls]; [simpl; lia|].
  rewrite py_join_cons, !length_app, IH. simpl. lia.
Qed.

Lemma clean_text_length l : (length (clean_text l) <= length l)%nat.
Proof.
  pose proof (collapse_ws_length (strip_marks (strip_tags l))) as H1.
  pose proof (re_sub_from_length mark_re 0 (strip_tags l)) as H2.
  pose proof (re_sub_from_length tag_re 0 l) as H3.
  unfold clean_text, strip_marks, strip_tags, re_sub in *. lia.
Qed.

Lemma emitted_weight seen lines :
  (sum_list_with (fun l => S (length l)) (emitted seen lines)
   <= sum_list_with (fun l => S (length l)) lines)%nat.
Proof.
  revert seen. induction lines as [|l ls IH]; intros seen; simpl; [done|].
  destruct (cleaned l) as [c|] eqn:E; [case_bool_decide|].
  - apply cleaned_Some in E as (_ & _ & _ & <- & _).
    pose proof (clean_text_length l). specialize (IH ({[clean_text l]} ∪ seen)).
    simpl. lia.
  - specialize (IH seen). lia.
  - specialize (IH seen). lia.
Qed.

(** The output is never longer than the input, in characters or in lines. *)
Theorem output_not_longer (s : str) :
  (char_count (clean_vtt_subtitle s) <= char_count s)%nat
  /\ (line_count (clean_vtt_subtitle s) <= line_count s)%nat
  /\ (length (clean_lines s) <= line_count s)%nat.
Proof.
  pose proof (emitted_length ∅ (py_split_sep NL s)) as Hlen.
  rewrite <- clean_lines_emitted in Hlen.
  split; [|split; [|done]].
  - unfold char_count. rewrite <- (py_join_split_sep s) at 2.
    unfold clean_vtt_subtitle. rewrite !py_join_length, clean_lines_emitted.
    pose proof (emitted_weight ∅ (py_split_sep NL s)). lia.
  - unfold line_count in *. rewrite output_lines.
    destruct (py_split_sep_cons_inv NL s) as (l & ls & E). rewrite E in *.
    destruct (clean_lines s); simpl in *; lia.
Qed.

(** The statistics in general: the line count is the number of output
    lines, but 1 when there is none, and the character count is the sum of
    their lengths and one newline between two of them. *)
Theorem statistics_of_output (s : str) :
  line_count (clean_vtt_subtitle s) = Nat.max 1 (length (clean_lines s))
  /\ char_count (clean_vtt_subtitle s)
     = (sum_list_with length (clean_lines s) + (length (clean_lines s) - 1))%nat.
Proof.
  split.
  - unfold line_count. rewrite output_lines.
    destruct (clean_lines s); simpl; lia.
  - unfold char_count, clean_vtt_subtitle. rewrite py_join_length.
    assert (forall ls : list str,
              sum_list_with (fun l => S (length l)) ls
              = (sum_list_with length ls + length ls)%nat) as Hsum.
    { induction ls as [|l ls IH]; simpl; lia. }
    rewrite Hsum. destruct (clean_lines s); simpl; lia.
Qed.

(** *** Joining two inputs *)

Lemma py_split_sep_app a b :
  py_split_sep NL (a ++ NL :: b) = py_split_sep NL a ++ py_split_sep NL b.
Proof.
  induction a as [|c a IH]; [done|]. simpl. rewrite IH.
  destruct (c =? NL); [done|].
  by destruct (py_split_sep_cons_inv NL a) as (l & ls & ->).
Qed.

(** Starting the loop with more lines seen only filters what it appends. *)
Lemma emitted_union_filter (A B : gset str) lines :
  emitted (A ∪ B) lines = filter (fun x => x ∉ A) (emitted B lines).
Proof.
  revert B. induction lines as [|l ls IH]; intros B; simpl; [done|].
  destruct (cleaned l) as [c|]; [|apply IH].
  destruct (decide (c ∈ B)) as [HB | HB].
  - rewrite !bool_decide_false; [apply IH | by intros [] |].
    intros Hn. apply Hn, elem_of_union. by right.
  - rewrite (bool_decide_true (c ∉ B)) by done.
    destruct (decide (c ∈ A)) as [HA | HA].
    + rewrite bool_decide_false, filter_cons_False by
        (try (intros Hn; apply Hn); try apply elem_of_union; auto).
      rewrite <- IH. f_equal. apply set_eq. intros x.
      rewrite !elem_of_union, elem_of_singleton. split; [tauto|].
      intros [? | [-> | ?]]; auto.
    + rewrite bool_decide_true, filter_cons_True by
        (try done; by intros [? | ?]%elem_of_union).
      f_equal. rewrite <- IH. f_equal. apply set_eq. intros x.
      rewrite !elem_of_union, elem_of_singleton. tauto.
Qed.

Lemma emitted_app seen la lb :
  emitted seen (la ++ lb) =
  emitted seen la ++ emitted (list_to_set (emitted seen la) ∪ seen) lb.
Proof.
  revert seen. induction la as [|l la IH]; intros seen; simpl.
  - by rewrite union_empty_l_L.
  - destruct (cleaned l) as [c|]; [case_bool_decide as Hc|]; try apply IH.
    rewrite IH, list_to_set_cons. simpl. f_equal. f_equal. f_equal.
    apply set_eq. intros x. rewrite !elem_of_union, elem_of_singleton. tauto.
Qed.

Lemma clean_lines_app a b :
  clean_lines (a ++ [NL] ++ b) =
  clean_lines a ++ filter (fun l => l ∉ clean_lines a) (clean_lines b).
Proof.
  rewrite !clean_lines_emitted. simpl. rewrite py_split_sep_app, emitted_app.
  f_equal. rewrite emitted_union_filter.
  apply list_filter_iff. intros x. apply not_elem_of_list_to_set.
Qed.

(** Cleaning two inputs joined by a newline gives the output lines of the
    first, then those of the second that the first did not give already. *)
Theorem clean_of_joined_inputs (a b : str) :
  clean_lines (a ++ [NL] ++ b) =
  clean_lines a ++ filter (fun l => l ∉ clean_lines a) (clean_lines b).
Proof. apply clean_lines_app. Qed.

(** Appending an input whose output lines the first input gives already
    changes nothing; appending the input to itself is the case in point. *)
Theorem appending_known_lines_changes_nothing (a b : str) :
  (forall l, l ∈ clean_lines b -> l ∈ clean_lines a) ->
  clean_vtt_subtitle (a ++ [NL] ++ b) = clean_vtt_subtitle a.
Proof.
  intros Hsub. unfold clean_vtt_subtitle. rewrite clean_lines_app.
  assert (filter (fun l => l ∉ clean_lines a) (clean_lines b) = []) as ->.
  { induction (clean_lines b) as [|x xs IH]; [done|].
    rewrite filter_cons_False by (intros Hn; apply Hn, Hsub; by left).
    apply IH. intros l Hl. apply Hsub. by right. }
  by rewrite app_nil_r.
Qed.

Lemma emitted_skip_middle seen la l lb :
  cleaned l = None -> emitted seen (la ++ l :: lb) = emitted seen (la ++ lb).
Proof. intros Hl. rewrite !emitted_app. simpl. by rewrite Hl. Qed.

Lemma skipped_line_cleaned l :
  is_header l || is_timing l || is_blank l = true -> cleaned l = None.
Proof. intros Hl. unfold cleaned. by rewrite Hl. Qed.

(** A header line, a timing line or a blank line can be taken out of the
    input, wherever it stands, without changing the output; so a newline at
    the end of the input makes no difference. *)
Theorem skipped_lines_do_not_matter (a l b : str) :
  NL ∉ l -> is_header l || is_timing l || is_blank l = true ->
  clean_vtt_subtitle (a ++ [NL] ++ l ++ [NL] ++ b)
  = clean_vtt_subtitle (a ++ [NL] ++ b)
  /\ clean_vtt_subtitle (l ++ [NL] ++ b) = clean_vtt_subtitle b
  /\ clean_vtt_subtitle (a ++ [NL] ++ l) = clean_vtt_subtitle a.
Proof.
  intros Hnl Hl%skipped_line_cleaned. unfold clean_vtt_subtitle.
  rewrite !clean_lines_emitted. simpl.
  rewrite !py_split_sep_app, (py_split_sep_line l) by done. simpl.
  split; [|split]; f_equal.
  - by apply emitted_skip_middle.
  - simpl. by rewrite Hl.
  - rewrite (emitted_skip_middle _ _ l []) by done. by rewrite app_nil_r.
Qed.

(** *** Where the characters of the output come from *)

Lemma py_join_elem sep ls c :
  c ∈ py_join sep ls ->
  (exists l, l ∈ ls /\ c ∈ l) \/ (c ∈ sep /\ (2 <= length ls)%nat).
Proof.
  induction ls as [|p ls IH]; [by intros ?%elem_of_nil|].
  destruct ls as [|q ls].
  - intros Hc. left. exists p. split; [by left | done].
  - rewrite py_join_cons, !elem_of_app. intros [Hc | [Hc | Hc]].
    + left. exists p. split; [by left | done].
    + right. split; [done | simpl; lia].
    + destruct (IH Hc) as [(l & Hl & Hcl) | [Hs _]].
      * left. exists l. split; [by right | done].
      * right. split; [done | simpl; lia].
Qed.

Lemma py_split_sep_elem sep s l c : l ∈ py_split_sep sep s -> c ∈ l -> c ∈ s.
Proof.
  revert l. induction s as [|a t IH]; intros l; simpl.
  - intros ->%list_elem_of_singleton. by intros ?%elem_of_nil.
  - destruct (a =? sep).
    + intros [-> | Hl]%elem_of_cons Hc; [by apply elem_of_nil in Hc|].
      right. by apply (IH l).
    + destruct (py_split_sep_cons_inv sep t) as (l0 & ls0 & E).
      rewrite E in IH |- *.
      intros [-> | Hl]%elem_of_cons Hc.
      * apply elem_of_cons in Hc as [-> | Hc]; [by left|].
        right. apply (IH l0); [by left | done].
      * right. apply (IH l); [by right | done].
Qed.

(** The cleaner invents no text: a character of the output is a character
    of the input, or it is a space that stands for whitespace of the
    input. *)
Theorem output_characters_from_input (s : str) :
  Forall (fun c => c ∈ s \/ (c = SP /\ Exists (fun w => isspace w = true) s))
    (clean_vtt_subtitle s).
Proof.
  apply Forall_forall. intros c Hc. unfold clean_vtt_subtitle in Hc.
  apply py_join_elem in Hc as [(o & Ho & Hco) | [Hnl Hlen]].
  - apply clean_lines_elem in Ho as (l & Hl & Ho).
    apply cleaned_Some in Ho as (_ & _ & _ & <- & _).
    assert (forall x, x ∈ strip_marks (strip_tags l) -> x ∈ s) as Hsub.
    { intros x Hx. apply (py_split_sep_elem NL s l); [done|].
      by apply re_sub_from_elem, re_sub_from_elem in Hx. }
    destruct (ws_squeeze_elem _ _ c (collapse_ws_squeeze _) Hco)
      as [Hx | [-> Hex]]; [left; by apply Hsub|].
    right. split; [done|]. apply Exists_exists in Hex as (w & Hw & Hsp).
    apply Exists_exists. exists w. split; [by apply Hsub | done].
  - apply list_elem_of_singleton in Hnl as ->. left.
    destruct (decide (NL ∈ s)) as [|Hn]; [done|].
    pose proof (emitted_length ∅ (py_split_sep NL s)) as Hle.
    rewrite <- clean_lines_emitted, py_split_sep_line in Hle by done.
    simpl in Hle. lia.
Qed.

(** *** Whitespace at the end of a line *)

Lemma startswith_snoc p l c : c ∉ p -> startswith p (l ++ [c]) = startswith p l.
Proof.
  revert l. induction p as [|a p IH]; intros l Hc; [done|].
  apply not_elem_of_cons in Hc as [Hca Hcp].
  destruct l as [|b l]; simpl.
  - assert ((a =? c) = false) as -> by (apply N.eqb_neq; congruence). done.
  - by rewrite IH.
Qed.

Lemma contains_snoc p l c :
  p <> [] -> c ∉ p -> contains p (l ++ [c]) = contains p l.
Proof.
  intros Hp Hc. induction l as [|b l IH].
  - destruct p as [|a p]; [done|].
    apply not_elem_of_cons in Hc as [Hca _]. simpl.
    assert ((a =? c) = false) as -> by (apply N.eqb_neq; congruence). done.
  - change (contains p ((b :: l) ++ [c]))
      with (startswith p ((b :: l) ++ [c]) || contains p (l ++ [c])).
    by rewrite startswith_snoc, IH.
Qed.

Lemma skip_tests_snoc l c :
  isspace c = true ->
  is_header (l ++ [c]) = is_header l /\ is_timing (l ++ [c]) = is_timing l.
Proof.
  intros Hc.
  assert (forall p, Forall (fun x => isspace x = false) p -> c ∉ p) as Hnot.
  { intros p Hp Hin. rewrite Forall_forall in Hp. specialize (Hp c Hin).
    congruence. }
  unfold is_header, is_timing.
  rewrite !startswith_snoc, contains_snoc; [done | done | ..];
    apply Hnot; by repeat constructor.
Qed.

Lemma is_blank_true l :
  is_blank l = true <-> Forall (fun c => isspace c = true) l.
Proof.
  unfold is_blank. rewrite <- py_strip_nil. by destruct (py_strip l).
Qed.

Lemma is_blank_snoc l c : isspace c = true -> is_blank (l ++ [c]) = is_blank l.
Proof.
  intros Hc. destruct (is_blank l) eqn:E.
  - apply is_blank_true. apply is_blank_true in E.
    apply Forall_app. split; [done | by constructor].
  - destruct (is_blank (l ++ [c])) eqn:E'; [|done].
    apply is_blank_true, Forall_app in E' as [E' _].
    apply is_blank_true in E'. congruence.
Qed.

(** The body of the tag pattern matches up to the first ['>'], if there is
    one, and in no other way. *)
Lemma tag_body_after_gt x t :
  x <> GT ->
  plus_class (CNot GT) (x :: t) ≫= rmatch (RClass (CChar GT))
  = match after_gt t with Some r => [r] | None => [] end.
Proof.
  revert x. induction t as [|c t IH]; intros x Hx.
  - simpl. by apply N.eqb_neq in Hx as ->.
  - change (plus_class (CNot GT) (x :: c :: t))
      with (if negb (x =? GT)
            then plus_class (CNot GT) (c :: t) ++ [c :: t] else []).
    apply N.eqb_neq in Hx as ->. cbn [negb]. rewrite bind_app, bind_singleton.
    destruct (N.eq_dec c GT) as [-> | Hc]; [done|].
    rewrite IH by done. cbn [rmatch in_class after_gt].
    apply N.eqb_neq in Hc as ->. by rewrite app_nil_r.
Qed.

Lemma after_gt_snoc t c :
  c <> GT -> after_gt (t ++ [c]) = (fun r => r ++ [c]) <$> after_gt t.
Proof.
  intros Hc. induction t as [|a t IH]; simpl.
  - by apply N.eqb_neq in Hc as ->.
  - by destruct (a =? GT).
Qed.

Lemma re_match_tag_snoc v c :
  c <> GT -> c <> LT -> re_match tag_re (v ++ [c]) = re_match tag_re v.
Proof.
  intros Hgt Hlt. unfold re_match. destruct v as [|a t].
  - simpl app. rewrite rmatch_tag_re. by apply N.eqb_neq in Hlt as ->.
  - change ((a :: t) ++ [c]) with (a :: (t ++ [c])). rewrite !rmatch_tag_re.
    destruct (a =? LT); [|done]. destruct t as [|x t].
    + simpl app. by rewrite tag_body_after_gt.
    + change ((x :: t) ++ [c]) with (x :: (t ++ [c])).
      destruct (N.eq_dec x GT) as [-> | Hx]; [done|].
      rewrite !tag_body_after_gt, after_gt_snoc by done.
      destruct (after_gt t) as [r|]; [|done]. simpl. f_equal.
      rewrite !length_app. simpl. lia.
Qed.

Lemma re_match_le r s n : re_match r s = Some n -> (n <= length s)%nat.
Proof.
  unfold re_match. destruct (rmatch r s); [done|]. intros [= <-]. lia.
Qed.

(** A character that closes and opens no tag, put at the end of a line,
    stays at the end when the tags are removed. *)
Lemma re_sub_from_tag_snoc k l c :
  c <> GT -> c <> LT -> (k <= length l)%nat ->
  re_sub_from tag_re k (l ++ [c]) = re_sub_from tag_re k l ++ [c].
Proof.
  intros Hgt Hlt. revert k. induction l as [|a t IH]; intros k Hk.
  - destruct k; [|simpl in Hk; lia].
    pose proof (re_match_tag_snoc [] c Hgt Hlt) as Hm.
    change ([] ++ [c]) with [c] in *. by rewrite re_sub_from_scan, Hm.
  - change ((a :: t) ++ [c]) with (a :: (t ++ [c])).
    destruct k as [|k].
    + rewrite !re_sub_from_scan.
      change (a :: (t ++ [c])) with ((a :: t) ++ [c]).
      rewrite re_match_tag_snoc by done.
      destruct (re_match tag_re (a :: t)) as [[|n]|] eqn:E.
      * simpl. f_equal. apply IH. lia.
      * apply IH. apply re_match_le in E. simpl in E. lia.
      * simpl. f_equal. apply IH. lia.
    + rewrite !re_sub_from_skip. apply IH. simpl in Hk. lia.
Qed.

Lemma split_ws_snoc w l c :
  isspace c = true -> split_ws w (l ++ [c]) = split_ws w l.
Proof.
  intros Hc. revert w. induction l as [|a l IH]; intros w; simpl.
  - rewrite Hc. by destruct w.
  - destruct (isspace a); [|apply IH]. destruct w; by rewrite IH.
Qed.

Lemma cleaned_snoc l c : isspace c = true -> cleaned (l ++ [c]) = cleaned l.
Proof.
  intros Hc.
  assert (c <> GT /\ c <> LT) as [Hgt Hlt] by (split; by intros ->).
  assert (clean_text (l ++ [c]) = clean_text l) as Hct.
  { unfold clean_text, strip_marks, strip_tags, re_sub.
    rewrite !mark_after_tag, re_sub_from_tag_snoc by (try done; lia).
    unfold collapse_ws, py_split. by rewrite split_ws_snoc. }
  destruct (skip_tests_snoc l c Hc) as [Hh Ht].
  unfold cleaned. by rewrite Hh, Ht, is_blank_snoc, Hct.
Qed.

Lemma cleaned_trailing_space l ws :
  Forall (fun c => isspace c = true) ws -> cleaned (l ++ ws) = cleaned l.
Proof.
  intros Hws. revert l. induction Hws as [|c ws Hc _ IH]; intros l.
  - by rewrite app_nil_r.
  - rewrite (cons_middle c l ws), app_assoc, IH. by apply cleaned_snoc.
Qed.

(** Whitespace at the end of a line, a carriage return for one, changes
    nothing of what the loop does with the line. *)
Theorem trailing_whitespace_ignored (st : loop_state) (l ws : str) :
  Forall (fun c => isspace c = true) ws ->
  loop_body st (l ++ ws) = loop_body st l.
Proof.
  intros Hws. by rewrite !loop_body_cleaned, cleaned_trailing_space.
Qed.

Lemma emitted_ext seen la lb :
  Forall2 (fun x y => cleaned x = cleaned y) la lb ->
  emitted seen la = emitted seen lb.
Proof.
  intros H. revert seen. induction H as [|x y la lb Hxy _ IH]; intros seen.
  - done.
  - simpl. rewrite Hxy. destruct (cleaned y); [|apply IH].
    case_bool_decide; [f_equal|]; apply IH.
Qed.

Lemma py_split_sep_join_crlf l ls :
  Forall (fun x => NL ∉ x) (l :: ls) ->
  Forall2 (fun x y => cleaned x = cleaned y)
    (py_split_sep NL (py_join [13; NL] (l :: ls))) (l :: ls).
Proof.
  revert l. induction ls as [|l' ls IH]; intros l Hall.
  - inversion Hall; subst. simpl. rewrite py_split_sep_line by done.
    by repeat constructor.
  - inversion Hall as [|? ? Hl Hls]; subst.
    rewrite py_join_cons.
    change (l ++ [13; NL] ++ py_join [13; NL] (l' :: ls))
      with (l ++ [13] ++ NL :: py_join [13; NL] (l' :: ls)).
    rewrite app_assoc, py_split_sep_cons.
    + constructor; [by apply cleaned_snoc | by apply IH].
    + intros [? | Hin]%elem_of_app; [done|].
      by apply list_elem_of_singleton in Hin.
Qed.

(** Line ends of carriage return and newline give the same output as line
    ends of a newline alone. *)
Theorem crlf_line_ends_ignored (lines : list str) :
  Forall (fun l => NL ∉ l) lines ->
  clean_vtt_subtitle (py_join [13; NL] lines)
  = clean_vtt_subtitle (py_join [NL] lines).
Proof.
  intros Hall. destruct lines as [|l ls]; [done|].
  unfold clean_vtt_subtitle. rewrite !clean_lines_emitted. f_equal.
  rewrite (py_split_sep_join l ls) by done.
  by apply emitted_ext, py_split_sep_join_crlf.
Qed.

(** *** Empty output, reordered input *)

(** The output is empty exactly when every input line is a header line, a
    timing line, a blank line, or a line of which the cleaning leaves
    nothing. *)
Theorem empty_output_iff (s : str) :
  clean_vtt_subtitle s = [] <->
  Forall (fun l => is_header l = true \/ is_timing l = true
                   \/ is_blank l = true \/ clean_text l = [])
    (py_split_sep NL s).
Proof.
  assert (forall l, cleaned l = None <->
            is_header l = true \/ is_timing l = true
            \/ is_blank l = true \/ clean_text l = []) as Hnone.
  { intros l. unfold cleaned.
    destruct (is_header l), (is_timing l), (is_blank l); cbn [orb];
      try (split; [auto | done]).
    destruct (clean_text l); cbn [truthy]; [split; auto|].
    split; [done|]. by intros [? | [? | [? | ?]]]. }
  split.
  - intros Hemp. apply Forall_forall. intros l Hl. apply Hnone.
    destruct (cleaned l) as [c|] eqn:E; [|done].
    assert (c ∈ clean_lines s) as Hc by (apply clean_lines_elem; eauto).
    pose proof (clean_lines_words s) as Hw. unfold clean_vtt_subtitle in Hemp.
    destruct (clean_lines s) as [|o os]; [by apply elem_of_nil in Hc|].
    inversion Hw as [|? ? [Ho _] _]; subst.
    by destruct (py_join_nil_inv [NL] o os Ho).
  - intros Hall. unfold clean_vtt_subtitle.
    rewrite clean_lines_emitted, emitted_all_skipped; [done|].
    eapply Forall_impl; [exact Hall|]. intros l. apply Hnone.
Qed.

(** Putting the input lines in another order only puts the output lines in
    another order. *)
Theorem reordered_input_reorders_output (s1 s2 : str) :
  py_split_sep NL s1 ≡ₚ py_split_sep NL s2 ->
  clean_lines s1 ≡ₚ clean_lines s2.
Proof.
  intros Hperm. apply NoDup_Permutation.
  - rewrite clean_lines_emitted. apply emitted_NoDup.
  - rewrite clean_lines_emitted. apply emitted_NoDup.
  - intros c. rewrite !clean_lines_elem.
    split; intros (l & Hl & Hc); exists l; split; try done.
    + by rewrite <- Hperm.
    + by rewrite Hperm.
Qed.

(** ** The command line *)




End Cleaner.

(** ** Instances *)

(** C1 on three lines, the third a repetition of the first. *)
Lemma clean_output_distinct_in_first_occurrence_order_witness :
  let s := lit "beta" ++ [NL] ++ lit "<c>alpha</c>" ++ [NL] ++ lit " beta" in
  let lines := py_split_sep NL s in
  clean_lines ascii_alnum_only s = [lit "beta"; lit "alpha"]
  /\ exists i' j',
       first_index ascii_alnum_only (lit "beta") lines = Some i'
       /\ first_index ascii_alnum_only (lit "alpha") lines = Some j'
       /\ (i' < j')%nat.
Proof.
  split; [by vm_compute|].
  apply (proj2 (proj2 (proj2 (proj2
           (clean_output_distinct_in_first_occurrence_order ascii_alnum_only
              (lit "beta" ++ [NL] ++ lit "<c>alpha</c>" ++ [NL]
               ++ lit " beta"))))) 0%nat 1%nat).
  - vm_compute. reflexivity.
  - vm_compute. reflexivity.
  - apply le_n.
Defined.

(** C2 fails as stated: [" WEBVTT"] is cleaned to ["WEBVTT"], and that is
    cleaned to the empty string. *)
Lemma clean_not_idempotent :
  let s := lit " WEBVTT" in
  (forall ua, clean_vtt_subtitle ua s = lit "WEBVTT")
  /\ (forall ua, clean_vtt_subtitle ua (clean_vtt_subtitle ua s) = [])
  /\ (forall ua, clean_vtt_subtitle ua (clean_vtt_subtitle ua s)
                 <> clean_vtt_subtitle ua s).
Proof. repeat split; intros ua; by vm_compute. Qed.

(** The amended C2 on an input whose output is ["Hi there"]. *)
Lemma clean_idempotent_on_stable_output_witness :
  let s := lit "WEBVTT" ++ [NL] ++ lit "<c>Hi</c>  there" ++ [NL]
           ++ lit "Hi there" in
  clean_vtt_subtitle ascii_alnum_only (clean_vtt_subtitle ascii_alnum_only s)
  = clean_vtt_subtitle ascii_alnum_only s.
Proof.
  apply (clean_idempotent_on_stable_output ascii_alnum_only).
  vm_compute. repeat constructor.
Defined.

(** C3 fails as stated: the line ["  Kind: captions"] does not start with a
    header keyword, and the output line it gives does. *)
Lemma header_prefix_in_output :
  let s := lit "  Kind: captions" in
  is_header s = false
  /\ (forall ua, clean_vtt_subtitle ua s = lit "Kind: captions")
  /\ (forall ua, Exists (fun l => startswith (lit "Kind:") l = true)
                   (py_split_sep NL (clean_vtt_subtitle ua s))).
Proof.
  repeat split; intros; try by vm_compute.
  vm_compute. by left.
Qed.

(** The amended C3 on two header lines and a line of text. *)
Lemma header_lines_discarded_witness :
  let s := lit "WEBVTT" ++ [NL] ++ lit "Kind: captions" ++ [NL]
           ++ lit "Hello  world" in
  exists l, l ∈ py_split_sep NL s
            /\ startswith (lit "WEBVTT") l = false
            /\ startswith (lit "Kind:") l = false
            /\ startswith (lit "Language:") l = false
            /\ clean_text ascii_alnum_only l = lit "Hello world".
Proof.
  apply (proj2 (header_lines_discarded ascii_alnum_only)).
  vm_compute. left.
Defined.

(** C4 fails as stated: the line ["--<c>>"] holds no arrow, and the output
    line left of it after the tag is removed is the arrow. *)
Lemma arrow_in_output :
  let s := lit "--<c>>" in
  contains (lit "-->") s = false
  /\ (forall ua, clean_vtt_subtitle ua s = lit "-->")
  /\ (forall ua, Exists (fun l => contains (lit "-->") l = true)
                   (py_split_sep NL (clean_vtt_subtitle ua s))).
Proof.
  repeat split; intros; try by vm_compute.
  vm_compute. by left.
Qed.

(** The amended C4 on a timing line with text after it, and a line of text. *)
Lemma timing_lines_discarded_witness :
  let s := lit "00:00:01.000 --> 00:00:04.000 Hello" ++ [NL] ++ lit "world" in
  exists l, l ∈ py_split_sep NL s
            /\ contains (lit "-->") l = false
            /\ clean_text ascii_alnum_only l = lit "world".
Proof.
  apply (proj2 (timing_lines_discarded ascii_alnum_only)).
  vm_compute. left.
Defined.

(** C6 on a line that is no cue at all. *)
Lemma clean_total_passes_text_through_witness :
  let s := lit "WEBVTT" ++ [NL] ++ lit "not a   cue <i>at</i> all" in
  let l := lit "not a   cue <i>at</i> all" in
  clean_text ascii_alnum_only l = lit "not a cue at all"
  /\ lit "not a cue at all" ∈ clean_lines ascii_alnum_only s.
Proof.
  cbv zeta.
  pose proof (proj2 (clean_total_passes_text_through ascii_alnum_only
    (lit "WEBVTT" ++ [NL] ++ lit "not a   cue <i>at</i> all"))
    (lit "not a   cue <i>at</i> all")) as H.
  destruct H as (_ & Hin & _).
  - vm_compute. right. left.
  - reflexivity.
  - reflexivity.
  - reflexivity.
  - split; [reflexivity|]. apply Hin. by vm_compute.
Defined.

(** C7 on an input of header lines, a blank line and a timing line. *)
Lemma empty_output_statistics_witness :
  let s := lit "WEBVTT" ++ [NL] ++ lit "Kind: captions" ++ [NL]
           ++ lit "Language: en" ++ [NL; NL]
           ++ lit "00:00:01.000 --> 00:00:04.000" ++ [NL] in
  line_count (clean_vtt_subtitle ascii_alnum_only s) = 1%nat
  /\ char_count (clean_vtt_subtitle ascii_alnum_only s) = 0%nat.
Proof.
  apply (empty_output_statistics ascii_alnum_only). vm_compute. reflexivity.
Defined.

(** C8 on an input with empty and whitespace-only lines between the text. *)
Lemma clean_output_no_blank_lines_witness :
  let s := [NL; SP; 9; NL] ++ lit "Hello" ++ [NL; NL] ++ lit "world" ++ [NL] in
  Forall (fun l => l <> [] /\ is_blank l = false)
    (py_split_sep NL (clean_vtt_subtitle ascii_alnum_only s)).
Proof.
  apply (proj1 (proj2 (proj2
           (clean_output_no_blank_lines ascii_alnum_only
              ([NL; SP; 9; NL] ++ lit "Hello" ++ [NL; NL] ++ lit "world"
               ++ [NL]))))).
  by vm_compute.
Defined.

(** C10 on the empty input and on three lines of whitespace. *)
Lemma clean_blank_input_empty_witness :
  clean_vtt_subtitle ascii_alnum_only [] = []
  /\ clean_vtt_subtitle ascii_alnum_only ([SP; SP; NL; 9; NL; SP]) = [].
Proof.
  split; apply (clean_blank_input_empty ascii_alnum_only); vm_compute;
    repeat constructor.
Defined.


(** Appending an input to itself. *)
Lemma appending_known_lines_changes_nothing_witness :
  let a := lit "WEBVTT" ++ [NL] ++ lit "one" ++ [NL] ++ lit "<c>two</c>" in
  clean_vtt_subtitle ascii_alnum_only (a ++ [NL] ++ a)
  = clean_vtt_subtitle ascii_alnum_only a.
Proof.
  apply (appending_known_lines_changes_nothing ascii_alnum_only).
  intros l Hl. exact Hl.
Defined.

(** A timing line taken out of the middle, the start and the end. *)
Lemma skipped_lines_do_not_matter_witness :
  let a := lit "one" in
  let l := lit "00:00:01.000 --> 00:00:04.000" in
  let b := lit "two" in
  clean_vtt_subtitle ascii_alnum_only (a ++ [NL] ++ l ++ [NL] ++ b)
  = clean_vtt_subtitle ascii_alnum_only (a ++ [NL] ++ b)
  /\ clean_vtt_subtitle ascii_alnum_only (l ++ [NL] ++ b)
     = clean_vtt_subtitle ascii_alnum_only b
  /\ clean_vtt_subtitle ascii_alnum_only (a ++ [NL] ++ l)
     = clean_vtt_subtitle ascii_alnum_only a.
Proof.
  apply (skipped_lines_do_not_matter ascii_alnum_only).
  - refine (bool_decide_unpack _ _). by vm_compute.
  - by vm_compute.
Defined.

(** A line that ends with a carriage return. *)
Lemma trailing_whitespace_ignored_witness :
  loop_body ascii_alnum_only init_state (lit "Hello <c>world</c>" ++ [13])
  = loop_body ascii_alnum_only init_state (lit "Hello <c>world</c>").
Proof.
  apply (trailing_whitespace_ignored ascii_alnum_only).
  by repeat constructor.
Defined.

(** A short file with either kind of line end. *)
Lemma crlf_line_ends_ignored_witness :
  let lines := [lit "WEBVTT"; []; lit "00:00:01.000 --> 00:00:04.000";
                lit "Hello  world"] in
  clean_vtt_subtitle ascii_alnum_only (py_join [13; NL] lines)
  = clean_vtt_subtitle ascii_alnum_only (py_join [NL] lines).
Proof.
  apply (crlf_line_ends_ignored ascii_alnum_only).
  repeat constructor; refine (bool_decide_unpack _ _); by vm_compute.
Defined.


(** Reordering two lines. *)
Lemma reordered_input_reorders_output_witness :
  clean_lines ascii_alnum_only (lit "one" ++ [NL] ++ lit "two")
  ≡ₚ clean_lines ascii_alnum_only (lit "two" ++ [NL] ++ lit "one").
Proof.
  apply (reordered_input_reorders_output ascii_alnum_only).
  vm_compute. apply perm_swap.
Defined.

(** ** The scenarios of the specification *)

Example scenario1 ua :
  clean_vtt_subtitle ua
    (lit "WEBVTT" ++ [NL; NL]
     ++ lit "00:00:01.000 --> 00:00:03.000" ++ [NL]
     ++ lit "Hello world" ++ [NL; NL]
     ++ lit "00:00:03.000 --> 00:00:05.000" ++ [NL]
     ++ lit "Hello world" ++ [NL])
  = lit "Hello world".
Proof. by vm_compute. Qed.

Example scenario2 ua :
  clean_vtt_subtitle ua (lit "<c>Hi</c> there") = lit "Hi there".
Proof. by vm_compute. Qed.

Example scenario3 ua :
  clean_vtt_subtitle ua (lit "Multiple   spaces" ++ [9] ++ lit "here")
  = lit "Multiple spaces here".
Proof. by vm_compute. Qed.

(** ** The patterns and the string methods on examples *)

Example tag_re_timestamp ua :
  re_sub ua tag_re (lit "<00:00:01.000><c> word</c>") = lit " word".
Proof. by vm_compute. Qed.

Example tag_re_nested ua :
  re_sub ua tag_re (lit "<<b>b> a<>b <c") = lit "b> a<>b <c".
Proof. by vm_compute. Qed.

Example mark_re_alone ua :
  re_sub ua mark_re (lit "<c>Hi</c> <00:01> </> <a b>")
  = lit "Hi <00:01> </> <a b>".
Proof. by vm_compute. Qed.

Example split_lines :
  py_split_sep NL (lit "a" ++ [NL; NL] ++ lit "b" ++ [NL])
  = [lit "a"; []; lit "b"; []].
Proof. reflexivity. Qed.

Example split_words :
  py_split ([SP; 9] ++ lit "a  b" ++ [12288] ++ lit "c" ++ [13])
  = [lit "a"; lit "b"; lit "c"].
Proof. reflexivity. Qed.

Example strip_both : py_strip ([9; SP] ++ lit "a b" ++ [SP; 13]) = lit "a b".
Proof. reflexivity. Qed.
